(** * upgrade-provider: the topology classifier, the version resolver and the
      top-level error policy of [main.go], embedded and verified.

    Go strings are byte strings ([string]); Go's [int] results are [Z] where
    the source computes with a possibly negative index; a pointer that may be
    nil is an [option]; a function returning [(T, error)] returns a
    [result T]. *)

From Stdlib Require Import String Ascii List ZArith Bool Lia Arith.
From Stdlib Require Import Permutation Sorted DecimalString.
Import ListNotations.

Open Scope list_scope.
Open Scope string_scope.

(** ** The [strings] package, as far as [main.go] calls it *)

Module strings.

(** [s[i:]]; every use in the source has [0 <= i <= len(s)]. *)
Fixpoint from (i : nat) (s : string) : string :=
  match i, s with
  | O, _ => s
  | S _, EmptyString => EmptyString
  | S j, String _ s' => from j s'
  end.

(** [s[:i]]; every use in the source has [0 <= i <= len(s)]. *)
Fixpoint upto (i : nat) (s : string) : string :=
  match i, s with
  | O, _ => EmptyString
  | S _, EmptyString => EmptyString
  | S j, String c s' => String c (upto j s')
  end.

Definition HasPrefix (s pre : string) : bool := String.prefix pre s.

Definition HasSuffix (s suffix : string) : bool :=
  (String.length suffix <=? String.length s)%nat
  && String.eqb (from (String.length s - String.length suffix) s) suffix.

(** [strings.Index]: the first position where [substr] occurs, [None]
    standing for Go's [-1]. *)
Fixpoint Index (s substr : string) : option nat :=
  if String.prefix substr s then Some O
  else match s with
       | EmptyString => None
       | String _ s' => option_map S (Index s' substr)
       end.

(** [strings.Cut]: [(before, after, found)]. *)
Definition Cut (s sep : string) : string * string * bool :=
  match Index s sep with
  | Some i => (upto i s, from (i + String.length sep) s, true)
  | None => (s, EmptyString, false)
  end.

(** [strings.LastIndexByte]: the last position of byte [c], or [-1]. *)
Fixpoint LastIndexByte (s : string) (c : ascii) : Z :=
  match s with
  | EmptyString => (-1)%Z
  | String b s' =>
      let r := LastIndexByte s' c in
      if (0 <=? r)%Z then (r + 1)%Z
      else if Ascii.eqb b c then 0%Z else (-1)%Z
  end.

Definition TrimPrefix (s pre : string) : string :=
  if HasPrefix s pre then from (String.length pre) s else s.

(** [strings.Split(s, sep)] for a separator of one byte, which every call
    in the source has: the pieces between the occurrences of [sep], one more
    than there are occurrences. *)
Fixpoint Split (s : string) (sep : ascii) : list string :=
  match s with
  | EmptyString => [EmptyString]
  | String c s' =>
      if Ascii.eqb c sep then EmptyString :: Split s' sep
      else match Split s' sep with
           | piece :: pieces => String c piece :: pieces
           | [] => [String c EmptyString]
           end
  end.

End strings.

(** ** Errors

    [error] values as this program builds them: the [HandledError] struct,
    [errors.New]/[fmt.Errorf] without [%w] (a message), and [fmt.Errorf] with
    [%w] (a message and the wrapped error). *)

Inductive error : Type :=
| HandledError : error
| errorString (msg : string) : error
| wrapError (msg : string) (err : error) : error.

Definition ErrHandled : error := HandledError.

Definition Error (e : error) : string :=
  match e with
  | HandledError => "Program failed and displayed the error to the user"
  | errorString msg => msg
  | wrapError msg _ => msg
  end.

Definition error_eqb_handled (e : error) : bool :=
  match e with HandledError => true | _ => false end.

(** [errors.Is(err, ErrHandled)]: compares [err] with the target, then walks
    the [Unwrap] chain. *)
Fixpoint errors_Is_Handled (e : error) : bool :=
  error_eqb_handled e ||
  match e with
  | wrapError _ inner => errors_Is_Handled inner
  | _ => false
  end.

(** [fmt.Errorf(pre + "%w", err)]. *)
Definition Errorf_w (pre : string) (err : error) : error :=
  wrapError (pre ++ Error err) err.

Inductive result (A : Type) : Type :=
| Ok (a : A)
| Err (e : error).
Arguments Ok {A} a.
Arguments Err {A} e.

(** ** The [regexp] package, for patterns of the shape used in [main.go] *)

Module regexp.

Inductive regex : Type :=
| Empty                      (* matches nothing *)
| Eps                        (* matches the empty string *)
| Lit (c : ascii)            (* a literal byte *)
| Class (lo hi : ascii)      (* [lo-hi] *)
| Cat (r1 r2 : regex)
| Alt (r1 r2 : regex)
| Star (r : regex)
| EndText.                   (* $ without the multi-line flag *)

(** [r+] *)
Definition Plus (r : regex) : regex := Cat r (Star r).

(** Whether [r] matches the empty string, [atEnd] telling whether the
    position is the end of the text. *)
Fixpoint nullable (atEnd : bool) (r : regex) : bool :=
  match r with
  | Empty => false
  | Eps => true
  | Lit _ => false
  | Class _ _ => false
  | Cat r1 r2 => nullable atEnd r1 && nullable atEnd r2
  | Alt r1 r2 => nullable atEnd r1 || nullable atEnd r2
  | Star _ => true
  | EndText => atEnd
  end.

Definition in_class (lo hi c : ascii) : bool :=
  (nat_of_ascii lo <=? nat_of_ascii c)%nat && (nat_of_ascii c <=? nat_of_ascii hi)%nat.

(** The derivative of [r] by the byte [c]: what is left to match after
    reading [c] (a byte is read, so the position was not the end). *)
Fixpoint deriv (c : ascii) (r : regex) : regex :=
  match r with
  | Empty => Empty
  | Eps => Empty
  | Lit a => if Ascii.eqb a c then Eps else Empty
  | Class lo hi => if in_class lo hi c then Eps else Empty
  | Cat r1 r2 =>
      if nullable false r1
      then Alt (Cat (deriv c r1) r2) (deriv c r2)
      else Cat (deriv c r1) r2
  | Alt r1 r2 => Alt (deriv c r1) (deriv c r2)
  | Star r1 => Cat (deriv c r1) (Star r1)
  | EndText => Empty
  end.

(** Whether some match of [r] starts at the beginning of [s]. *)
Fixpoint matchHere (r : regex) (s : string) : bool :=
  match s with
  | EmptyString => nullable true r
  | String c s' => nullable false r || matchHere (deriv c r) s'
  end.

(** [loc[0]] of [re.FindStringIndex(s)]: the start of the leftmost match,
    [None] for a nil result.  The source reads nothing else of [loc]. *)
Fixpoint FindStringStart (r : regex) (s : string) : option nat :=
  if matchHere r s then Some O
  else match s with
       | EmptyString => None
       | String _ s' => option_map S (FindStringStart r s')
       end.

Definition MatchString (r : regex) (s : string) : bool :=
  match FindStringStart r s with Some _ => true | None => false end.

End regexp.

(** [var versionSuffix = regexp.MustCompile("/v[2-9]+$")] *)
Definition versionSuffix : regexp.regex :=
  regexp.Cat (regexp.Lit "/")
    (regexp.Cat (regexp.Lit "v")
       (regexp.Cat (regexp.Plus (regexp.Class "2" "9")) regexp.EndText)).

Definition modPathWithoutVersion (path : string) : string :=
  match regexp.FindStringStart versionSuffix path with
  | Some m0 => strings.upto m0 path
  | None => path
  end.

(** ** RepoKind *)

Definition RepoKind : Type := string.

Definition Plain : RepoKind := "plain".
Definition Forked : RepoKind := "forked".
Definition Shimmed : RepoKind := "shimmed".
Definition ForkedAndShimmed : RepoKind := "forked & shimmed".

(** The method [RepoKind.Shimmed] (the spec's [withShim]); the constant of
    the same name is [Shimmed] above. *)
Definition withShim (rk : RepoKind) : RepoKind :=
  if String.eqb rk Plain then Shimmed
  else if String.eqb rk Forked then ForkedAndShimmed
  else rk.

Definition IsForked (rk : RepoKind) : bool :=
  if String.eqb rk Forked then true
  else if String.eqb rk ForkedAndShimmed then true
  else false.

Definition IsShimmed (rk : RepoKind) : bool :=
  if String.eqb rk Shimmed then true
  else if String.eqb rk ForkedAndShimmed then true
  else false.


(** ** Manifests ([golang.org/x/mod]) *)

Record module_Version : Type := { Path : string; Version : string }.

Record modfile_Require : Type := { Mod : module_Version; Indirect : bool }.

Record modfile_Replace : Type := { Old : module_Version; New : module_Version }.

Record modfile_File : Type :=
  { Require : list modfile_Require; Replace : list modfile_Replace }.

Record GoMod : Type :=
  { Kind : RepoKind; Upstream : module_Version; Fork : option modfile_Replace }.

(** What [os.ReadFile] followed by [modfile.Parse] gives for one manifest. *)
Inductive manifest : Type :=
| Unreadable (err : error)        (* os.ReadFile returns err *)
| Unparseable (err : error)       (* modfile.Parse returns err *)
| Parsed (file : modfile_File).

(** What [os.Stat] gives: [err == nil], or an error together with
    [os.IsNotExist(err)]. *)
Inductive statResult : Type :=
| StatOk
| StatErr (err : error) (isNotExist : bool).

(** ** repoKind *)

(** The closure [getUpstream]: the loop over [file.Require]. *)
Fixpoint getUpstream_loop (tfProviderRepoName : string)
    (requires : list modfile_Require) : result modfile_Require :=
  match requires with
  | [] => Err (errorString ("could not find upstream '" ++ tfProviderRepoName
                            ++ "' in go.mod"))
  | mod' :: rest =>
      let pathWithoutVersion := modPathWithoutVersion (Path (Mod mod')) in
      if strings.HasSuffix pathWithoutVersion tfProviderRepoName
      then Ok mod'
      else getUpstream_loop tfProviderRepoName rest
  end.

Definition getUpstream (tfProviderRepoName : string) (file : modfile_File)
  : result modfile_Require :=
  getUpstream_loop tfProviderRepoName (Require file).

(** The loop over [goMod.Replace]: [Ok None] when it ends with [fork] still
    nil, [Ok (Some replace)] at the [break], [Err] at a [return nil, ...]. *)
Fixpoint findFork (tfProviderRepoName : string) (upstream : modfile_Require)
    (replaces : list modfile_Replace) : result (option modfile_Replace) :=
  match replaces with
  | [] => Ok None
  | replace :: rest =>
      if negb (String.eqb (Path (Old replace)) (Path (Mod upstream)))
      then findFork tfProviderRepoName upstream rest
      else
        let '(before, after, found) :=
          strings.Cut (Path (New replace)) ("/" ++ tfProviderRepoName) in
        if negb found
           || (negb (String.eqb after "")
               && negb (regexp.MatchString versionSuffix after))
        then Err (errorString ("go.mod: replace has incorrect repo: '"
                               ++ Path (New replace) ++ "'"))
        else
          let repoOrgSeperator := strings.LastIndexByte before "/" in
          let org := strings.from (Z.to_nat (repoOrgSeperator + 1)) before in
          if negb (String.eqb org "pulumi")
          then Err (errorString ("go.mod: tf fork maintained by '" ++ org
                                 ++ "': expected 'pulumi'"))
          else Ok (Some replace)
  end.

Section Classifier.

(** [filepath.Join], used here only to name the shim directory in an error
    message. *)
Variable filepath_Join : list string -> string.

(** Lines 380-407 of [repoKind]: the shim probe and the upstream lookup,
    giving [upstream] and [shimmed]. *)
Definition findUpstream (goMod : modfile_File) (shimStat : statResult)
    (shim : manifest) (path tfProviderRepoName : string)
  : result (modfile_Require * bool) :=
  let shimDir := filepath_Join [path; "provider"; "shim"] in
  match shimStat with
  | StatOk =>
      match shim with
      | Unreadable err => Err err
      | Unparseable err => Err (Errorf_w "shim/go.mod: " err)
      | Parsed shimMod =>
          match getUpstream tfProviderRepoName shimMod with
          | Err err => Err (Errorf_w "shim/go.mod: " err)
          | Ok upstream => Ok (upstream, true)
          end
      end
  | StatErr err false =>
      Err (wrapError ("unexpected error reading '" ++ shimDir ++ "': "
                      ++ Error err) err)
  | StatErr _ true =>
      match getUpstream tfProviderRepoName goMod with
      | Err err => Err (Errorf_w "go.mod: " err)
      | Ok upstream => Ok (upstream, false)
      end
  end.

(** [repoKind(ctx, path, providerName)].  [outer] is the outcome of reading
    and parsing [<path>/provider/go.mod], [shimStat] of
    [os.Stat(<path>/provider/shim)], [shim] of reading and parsing
    [<path>/provider/shim/go.mod] (consulted only after a successful
    [Stat]). *)
Definition repoKind (outer : manifest) (shimStat : statResult)
    (shim : manifest) (path providerName : string) : result GoMod :=
  match outer with
  | Unreadable err => Err (Errorf_w "go.mod: " err)
  | Unparseable err => Err (Errorf_w "go.mod: " err)
  | Parsed goMod =>
      let tfProviderRepoName := "terraform-provider-" ++ providerName in
      match findUpstream goMod shimStat shim path tfProviderRepoName with
      | Err err => Err err
      | Ok (upstream, shimmed) =>
          match findFork tfProviderRepoName upstream (Replace goMod) with
          | Err err => Err err
          | Ok fork =>
              let kind := match fork with None => Plain | Some _ => Forked end in
              let kind := if shimmed then withShim kind else kind in
              Ok {| Kind := kind; Upstream := Mod upstream; Fork := fork |}
          end
      end
  end.

End Classifier.

(** ** getExpectedTarget *)

(** What running [gh issue list ... --json=title] and decoding its output
    gives. *)
Inductive ghIssues : Type :=
| GhRunFailed (err : error)       (* getIssues.Run() returns err *)
| GhBadJSON (err : error)         (* json.Unmarshal returns err *)
| GhTitles (titles : list string).

Section VersionResolver.

(** The [semver] package and [sort.Slice]. *)
Variable semver_Version : Type.
Variable semver_NewVersion : string -> option semver_Version.
Variable LessThan : semver_Version -> semver_Version -> bool.
Variable sort_Slice :
  (semver_Version -> semver_Version -> bool) ->
  list semver_Version -> list semver_Version.

(** The version token of one title: what the two [strings.Cut] leave. *)
Definition versionToken (title : string) : option string :=
  let '(_, nameToVersion, found) :=
    strings.Cut title "Upgrade terraform-provider-" in
  if negb found then None
  else
    let '(_, version, found) := strings.Cut nameToVersion " to " in
    if negb found then None else Some version.

(** The loop over [titles] building [versions]. *)
Fixpoint collectVersions (titles : list string) : list semver_Version :=
  match titles with
  | [] => []
  | title :: rest =>
      match versionToken title with
      | None => collectVersions rest
      | Some version =>
          match semver_NewVersion version with
          | Some v => v :: collectVersions rest
          | None => collectVersions rest
          end
      end
  end.

(** [getExpectedTarget(ctx, name)]; [gh] maps the [--repo=] argument to the
    outcome of the query. *)
Definition getExpectedTarget (gh : string -> ghIssues) (name : string)
  : result semver_Version :=
  match gh ("--repo=pulumi/" ++ name) with
  | GhRunFailed err => Err err
  | GhBadJSON err => Err err
  | GhTitles titles =>
      let versions := collectVersions titles in
      if (List.length versions =? 0)%nat
      then Err (errorString "no upgrade found")
      else
        match sort_Slice (fun vi vj => LessThan vj vi) versions with
        | v0 :: _ => Ok v0
        | [] =>
            (* versions[0] on an empty slice panics; sort.Slice keeps the
               length, so this is not reached *)
            Err (errorString "runtime error: index out of range [0] with length 0")
        end
  end.

End VersionResolver.

(** ** pullDefault *)

(** The loop choosing [targetBranch]: [break] at "main", remember "master". *)
Fixpoint pickBranch (branches : list string) (targetBranch : string) : string :=
  match branches with
  | [] => targetBranch
  | branch :: rest =>
      if String.eqb branch "main" then branch
      else if String.eqb branch "master" then pickBranch rest branch
      else pickBranch rest targetBranch
  end.

Section PullDefault.

(** [fmt]'s [%#v] rendering of a [[]string]. *)
Variable fmt_GoSyntax : list string -> string.
(** [runGitCommand(ctx, filter, "ls-remote", "--heads", remote)]: the
    branches the filter extracts, or the error. *)
Variable git_lsRemoteHeads : string -> result (list string).
(** [runGitCommand(ctx, noOp, args...)]: the error, [None] for nil. *)
Variable git : list string -> option error.

Definition pullDefault (remote : string) : result string :=
  match git_lsRemoteHeads remote with
  | Err err => Err (Errorf_w "gathering branches: " err)
  | Ok branches =>
      let targetBranch := pickBranch branches "" in
      if String.eqb targetBranch ""
      then Err (errorString ("could not find 'main' or 'master' branch in "
                             ++ fmt_GoSyntax branches))
      else
        match git ["checkout"; targetBranch] with
        | Some err =>
            Err (wrapError ("checkout out " ++ targetBranch ++ ": "
                            ++ Error err) err)
        | None =>
            match git ["pull"; remote] with
            | Some err =>
                Err (wrapError ("fast-forwarding " ++ targetBranch ++ ": "
                                ++ Error err) err)
            | None => Ok targetBranch
            end
        end
  end.

End PullDefault.

(** ** UpgradeProvider and the command's [Run] *)

(** How a call ends: it returns its [error] ([None] for nil), or panics. *)
Inductive outcome : Type :=
| Returned (err : option error)
| Panicked.

Section Orchestrator.

(** The state the steps act on: the repositories, and the variables the
    step closures capture. *)
Variable World : Type.
(** [step.RunJob(name, steps...)]: runs the job, reports whether it
    succeeded. *)
Variable step_RunJob : string -> World -> bool * World.
(** [goMod.Kind] and [forkedProviderUpstreamCommit], as the steps left
    them. *)
Variable goMod_Kind : World -> RepoKind.
Variable forkedProviderUpstreamCommit : World -> string.

(** The progress of a run: the world, and the jobs started so far, each
    with the outcome [step.RunJob] reported. *)
Record Progress : Type := { world : World; jobs : list (string * bool) }.

Definition RunJob (name : string) (r : Progress) : bool * Progress :=
  let (ok, w) := step_RunJob name (world r) in
  (ok, {| world := w; jobs := (jobs r ++ [(name, ok)])%list |}).

Definition UpgradeProvider (r0 : Progress) : outcome * Progress :=
  let (ok, r1) := RunJob "Discovering Repository" r0 in
  if negb ok then (Returned (Some ErrHandled), r1)
  else
    let '(early, r2) :=
      if IsForked (goMod_Kind (world r1)) then
        let (ok, r2) := RunJob "Upgrading Forked Provider" r1 in
        if negb ok then (Some (Returned (Some ErrHandled)), r2)
        else (None, r2)
      else (None, r1) in
    match early with
    | Some out => (out, r2)
    | None =>
        if IsForked (goMod_Kind (world r2))
           && String.eqb (forkedProviderUpstreamCommit (world r2)) ""
        then (Panicked, r2)       (* contract.Assert *)
        else
          let (ok, r3) := RunJob "Upgrading Provider" r2 in
          if negb ok then (Returned (Some ErrHandled), r3)
          else (Returned None, r3)
    end.

End Orchestrator.

Arguments world {World} _.
Arguments jobs {World} _.

(** What the process did: what it printed on standard output, and its
    [os.Exit] status ([None] when [Run] returns). *)
Record Process : Type := { stdout : string; exitStatus : option Z }.

Definition newline : string := String (ascii_of_nat 10) EmptyString.

(** Lines 50-56 of [Run], on the value [err] of [UpgradeProvider]. *)
Definition report (err : option error) : Process :=
  match err with
  | Some e =>
      if errors_Is_Handled e
      then {| stdout := ""; exitStatus := Some 1%Z |}
      else {| stdout := "error: " ++ Error e ++ newline;
              exitStatus := Some 1%Z |}
  | None => {| stdout := ""; exitStatus := None |}
  end.

(** [Run]: an unrecovered panic ends the process with status 2. *)
Definition cmd_Run {World : Type} (step_RunJob : string -> World -> bool * World)
    (goMod_Kind : World -> RepoKind)
    (forkedProviderUpstreamCommit : World -> string) (w : World) : Process :=
  match fst (UpgradeProvider World step_RunJob goMod_Kind
               forkedProviderUpstreamCommit {| world := w; jobs := [] |}) with
  | Returned err => report err
  | Panicked => {| stdout := ""; exitStatus := Some 2%Z |}
  end.

(** ** The git helpers and the filters of their output *)

Definition LF : ascii := ascii_of_nat 10.
Definition TAB : ascii := ascii_of_nat 9.

(** [runGitCommand(ctx, filter, args...)] with a non-nil filter, as every
    call has: [git] gives the captured standard output of [git args...], or
    the error of [cmd.Run]. *)
Definition runGitCommand {T : Type} (git : list string -> result string)
    (filter : string -> result T) (args : list string) : result T :=
  match git args with
  | Err err => Err err
  | Ok out => filter out
  end.

(** The loop of [ensurePulumiRemote] over [remotes]. *)
Fixpoint hasPulumi (remotes : list string) : bool :=
  match remotes with
  | [] => false
  | remote :: rest => if String.eqb remote "pulumi" then true else hasPulumi rest
  end.

Definition ensurePulumiRemote (git : list string -> result string)
    (name : string) : result string :=
  match runGitCommand git (fun b => Ok (strings.Split b LF)) ["remote"] with
  | Err err => Err (Errorf_w "listing remotes: " err)
  | Ok remotes =>
      if hasPulumi remotes then Ok "'pulumi' already exists"
      else
        runGitCommand git (fun _ => Ok "set to 'pulumi'")
          ["remote"; "add"; "pulumi";
           "https://github.com/pulumi/terraform-provider-" ++ name ++ ".git"]
  end.

(** The filter of the step "Lookup Tag SHA", on the lines of
    [git ls-remote --tags]; [targetString] is [target.String()],
    [targetOriginal] is [target.Original()].  [None] stands for the panic of
    [contract.Assertf]. *)
Fixpoint lookupTagSHA_lines (lines : list string)
    (targetString targetOriginal : string) : option (result string) :=
  match lines with
  | [] => Some (Err (errorString ("could not find SHA for tag '"
                                  ++ targetOriginal ++ "'")))
  | line :: rest =>
      match strings.Split line TAB with
      | [part0; part1] =>
          if String.eqb part1 ("refs/tags/v" ++ targetString)
          then Some (Ok part0)
          else lookupTagSHA_lines rest targetString targetOriginal
      | _ => None
      end
  end.

Definition lookupTagSHA (b targetString targetOriginal : string)
  : option (result string) :=
  lookupTagSHA_lines (strings.Split b LF) targetString targetOriginal.

Section GitFilters.

(** [strings.TrimSpace], and the [semver] package. *)
Variable strings_TrimSpace : string -> string.
Variable semver_Version : Type.
Variable semver_NewVersion : string -> option semver_Version.
Variable LessThan : semver_Version -> semver_Version -> bool.
Variable Version_String : semver_Version -> string.

(** The filter of [pullDefault], on the lines of [git ls-remote --heads]:
    the branches, or [None] for the panic of [contract.Assert]. *)
Fixpoint remoteHeads_lines (lines : list string) : option (list string) :=
  match lines with
  | [] => Some []
  | line :: rest =>
      let line := strings_TrimSpace line in
      if String.eqb line "" then remoteHeads_lines rest
      else
        let '(_, ref, found) := strings.Cut line (String TAB "") in
        if negb found then None
        else
          let branch := strings.TrimPrefix ref "refs/heads/" in
          match remoteHeads_lines rest with
          | Some branches => Some (branch :: branches)
          | None => None
          end
  end.

Definition remoteHeads (out : string) : option (list string) :=
  remoteHeads_lines (strings.Split out LF).

(** The loop of the step "discover previous upstream version" over the
    lines of [git branch --remote --list pulumi/upstream-v*], from the value
    of the captured [previousUpstreamVersion] to its value after the loop. *)
Fixpoint scanUpstreamVersions (lines : list string)
    (previousUpstreamVersion : option semver_Version)
  : option semver_Version :=
  match lines with
  | [] => previousUpstreamVersion
  | line :: rest =>
      let line := strings_TrimSpace line in
      match semver_NewVersion (strings.TrimPrefix line "pulumi/upstream-v") with
      | None => scanUpstreamVersions rest previousUpstreamVersion
      | Some version =>
          match previousUpstreamVersion with
          | None => scanUpstreamVersions rest (Some version)
          | Some previous =>
              if LessThan previous version
              then scanUpstreamVersions rest (Some version)
              else scanUpstreamVersions rest previousUpstreamVersion
          end
      end
  end.

(** The filter of that step: its result, and [previousUpstreamVersion]
    afterwards. *)
Definition discoverPreviousUpstreamVersion (b : string)
    (previousUpstreamVersion : option semver_Version)
  : result string * option semver_Version :=
  match scanUpstreamVersions (strings.Split b LF) previousUpstreamVersion with
  | None => (Err (errorString "no version found"), None)
  | Some previous => (Ok (Version_String previous), Some previous)
  end.

End GitFilters.

(** ** An instance of the library parameters

    Versions of the shape [MAJOR.MINOR.PATCH] (an optional leading "v"),
    ordered lexicographically, and insertion sort: enough of [semver] and
    [sort.Slice] to run the resolver on concrete titles.  The other forms
    that [semver.NewVersion] accepts (a missing minor or patch, a
    pre-release, build metadata) are rejected here, and numbers are not
    bounded; the properties are stated over the parameters, this instance
    only runs them on inputs where it agrees with the library. *)

Module Triple.

Definition t : Type := (nat * nat * nat)%type.

Definition digit (c : ascii) : option nat :=
  let n := nat_of_ascii c in
  if (48 <=? n)%nat && (n <=? 57)%nat then Some (n - 48) else None.

Fixpoint number_from (acc : nat) (s : string) : option nat :=
  match s with
  | EmptyString => Some acc
  | String c s' =>
      match digit c with
      | Some d => number_from (10 * acc + d) s'
      | None => None
      end
  end.

Definition number (s : string) : option nat :=
  match s with
  | EmptyString => None
  | _ => number_from 0 s
  end.

Definition NewVersion (s : string) : option t :=
  let '(major, rest, found1) := strings.Cut (strings.TrimPrefix s "v") "." in
  let '(minor, patch, found2) := strings.Cut rest "." in
  if found1 && found2 then
    match number major, number minor, number patch with
    | Some x, Some y, Some z => Some (x, y, z)
    | _, _, _ => None
    end
  else None.

Definition LessThan (a b : t) : bool :=
  let '(a1, a2, a3) := a in
  let '(b1, b2, b3) := b in
  (a1 <? b1)%nat
  || ((a1 =? b1)%nat
      && ((a2 <? b2)%nat || ((a2 =? b2)%nat && (a3 <? b3)%nat))).

Fixpoint insert {A : Type} (less : A -> A -> bool) (x : A) (l : list A)
  : list A :=
  match l with
  | [] => [x]
  | y :: r => if less x y then x :: l else y :: insert less x r
  end.

Fixpoint sort {A : Type} (less : A -> A -> bool) (l : list A) : list A :=
  match l with
  | [] => []
  | x :: r => insert less x (sort less r)
  end.

Definition slash_Join (elems : list string) : string :=
  String.concat "/" elems.

Definition decimal (n : nat) : string := NilZero.string_of_uint (Nat.to_uint n).

Definition toString (v : t) : string :=
  let '(major, minor, patch) := v in
  decimal major ++ "." ++ decimal minor ++ "." ++ decimal patch.

End Triple.

(** [strings.TrimSpace] on text whose white space is ASCII: tab, line feed,
    vertical tab, form feed, carriage return and space are trimmed from both
    ends.  Unicode white space such as U+00A0, which the library trims too,
    is left in place; the properties are stated over the parameter, this
    instance only runs them on ASCII inputs. *)

Module AsciiSpace.

Definition isSpace (c : ascii) : bool :=
  let n := nat_of_ascii c in
  ((9 <=? n)%nat && (n <=? 13)%nat) || (n =? 32)%nat.

Fixpoint trimLeft (s : string) : string :=
  match s with
  | EmptyString => EmptyString
  | String c s' => if isSpace c then trimLeft s' else s
  end.

Fixpoint trimRight (s : string) : string :=
  match s with
  | EmptyString => EmptyString
  | String c s' =>
      match trimRight s' with
      | EmptyString => if isSpace c then EmptyString else String c EmptyString
      | t => String c t
      end
  end.

Definition TrimSpace (s : string) : string := trimRight (trimLeft s).

End AsciiSpace.

(** ** Manifests used as concrete inputs *)

Module Fixture.

Definition req (path version : string) : modfile_Require :=
  {| Mod := {| Path := path; Version := version |}; Indirect := false |}.

Definition repl (old new newVersion : string) : modfile_Replace :=
  {| Old := {| Path := old; Version := "" |};
     New := {| Path := new; Version := newVersion |} |}.

Definition bridge : modfile_Require :=
  req "github.com/pulumi/pulumi-terraform-bridge/v3" "v3.40.0".

Definition upstream_foo : modfile_Require :=
  req "github.com/hashicorp/terraform-provider-foo" "v1.2.0".

Definition other_foo : modfile_Require :=
  req "github.com/acme/terraform-provider-foo/v2" "v2.0.1".

(** One matching require entry, no replace directive. *)
Definition plain : modfile_File :=
  {| Require := [bridge; upstream_foo]; Replace := [] |}.

(** Two matching require entries. *)
Definition ambiguous : modfile_File :=
  {| Require := [bridge; upstream_foo; other_foo]; Replace := [] |}.

(** No matching require entry. *)
Definition unrelated : modfile_File :=
  {| Require := [bridge]; Replace := [] |}.

(** The upstream replaced by the fork that pulumi maintains. *)
Definition forked : modfile_File :=
  {| Require := [bridge; upstream_foo];
     Replace := [repl "github.com/hashicorp/terraform-provider-foo"
                      "github.com/pulumi/terraform-provider-foo/v4"
                      "v4.0.0-20230101"] |}.

(** The upstream replaced by a fork of another organization. *)
Definition foreign : modfile_File :=
  {| Require := [bridge; upstream_foo];
     Replace := [repl "github.com/hashicorp/terraform-provider-foo"
                      "github.com/evil/terraform-provider-foo"
                      "v1.2.1"] |}.

(** As [foreign], with more path after the repository name. *)
Definition foreign_subdir : modfile_File :=
  {| Require := [bridge; upstream_foo];
     Replace := [repl "github.com/hashicorp/terraform-provider-foo"
                      "github.com/evil/terraform-provider-foo/extra"
                      "v1.2.1"] |}.

(** Two directives for the upstream path, one per replaced version: the
    trusted fork first. *)
Definition forked_twice : modfile_File :=
  {| Require := [bridge; upstream_foo];
     Replace :=
       [ {| Old := {| Path := "github.com/hashicorp/terraform-provider-foo";
                      Version := "v1.2.0" |};
            New := {| Path := "github.com/pulumi/terraform-provider-foo/v4";
                      Version := "v4.0.0-20230101" |} |};
         {| Old := {| Path := "github.com/hashicorp/terraform-provider-foo";
                      Version := "v1.1.0" |};
            New := {| Path := "github.com/evil/terraform-provider-foo";
                      Version := "v1.1.1" |} |} ] |}.

(** A shim manifest whose upstream is not the outer manifest's. *)
Definition shim_manifest : modfile_File :=
  {| Require := [other_foo]; Replace := [] |}.

Definition notExist : statResult :=
  StatErr (errorString "stat provider/shim: no such file or directory") true.

Definition noManifest : manifest :=
  Unreadable (errorString "open provider/shim/go.mod: no such file or directory").

End Fixture.


(** ** Notions used to state the properties *)

(** A require entry that the upstream lookup accepts: the test of the loop
    in [getUpstream]. *)
Definition isUpstream (tfProviderRepoName : string) (entry : modfile_Require)
  : bool :=
  strings.HasSuffix (modPathWithoutVersion (Path (Mod entry))) tfProviderRepoName.

(** Whether the byte [c] occurs in [s]. *)
Fixpoint has_byte (c : ascii) (s : string) : bool :=
  match s with
  | EmptyString => false
  | String b s' => Ascii.eqb b c || has_byte c s'
  end.

(** The expression [before[repoOrgSeperator+1:]] of [repoKind]. *)
Definition orgOf (before : string) : string :=
  strings.from (Z.to_nat (strings.LastIndexByte before "/" + 1)) before.

(** An error that is [ErrHandled] or wraps it, at any depth. *)
Inductive IsHandled : error -> Prop :=
| IsHandled_here : IsHandled HandledError
| IsHandled_wrap (msg : string) (inner : error) :
    IsHandled inner -> IsHandled (wrapError msg inner).

Definition silentFailure : Process := {| stdout := ""; exitStatus := Some 1%Z |}.

Definition printedFailure (e : error) : Process :=
  {| stdout := "error: " ++ Error e ++ newline; exitStatus := Some 1%Z |}.

Definition normalExit : Process := {| stdout := ""; exitStatus := None |}.

Definition succeeded (job : string * bool) : Prop := snd job = true.

(** [sep] occurs in [s]; [before] is what stands before its first
    occurrence, [after] what follows that occurrence. *)
Definition firstCut (s sep before after : string) : Prop :=
  s = before ++ sep ++ after /\
  forall x y, s = x ++ sep ++ y -> String.length before <= String.length x.

(** [token] is the version token of [title]: "Upgrade terraform-provider-"
    occurs in the title, " to " occurs in what follows its first occurrence,
    and [token] is what follows the first such " to ". *)
Definition tokenOf (title token : string) : Prop :=
  exists pre rest mid,
    firstCut title "Upgrade terraform-provider-" pre rest /\
    firstCut rest " to " mid token.

(** [v] is what some title of [titles] parses to: the title has a version
    token and [semver.NewVersion] accepts it with result [v]. *)
Definition parsesTo {V : Type} (NewVersion : string -> option V)
    (titles : list string) (v : V) : Prop :=
  exists title token,
    In title titles /\ tokenOf title token /\
    NewVersion token = Some v.

(** The shape of a title that has a version token. *)
Definition upgradeTitle (title token : string) : Prop :=
  exists pre mid,
    title = pre ++ "Upgrade terraform-provider-" ++ mid ++ " to " ++ token.

(** Lines as a command prints them: each followed by a newline. *)
Fixpoint unlines (lines : list string) : string :=
  match lines with
  | [] => EmptyString
  | line :: rest => line ++ String LF (unlines rest)
  end.

(** A line of [git ls-remote]: the object name, a tab, the reference. *)
Definition refLine (entry : string * string) : string :=
  fst entry ++ String TAB (snd entry).

(** What a pattern matches: [Matches r w rest] when [r] matches the text
    [w] standing before [rest] ([rest] matters to [$] only). *)
Inductive Matches : regexp.regex -> string -> string -> Prop :=
| Matches_Eps (rest : string) : Matches regexp.Eps "" rest
| Matches_Lit (c : ascii) (rest : string) :
    Matches (regexp.Lit c) (String c "") rest
| Matches_Class (lo hi c : ascii) (rest : string) :
    regexp.in_class lo hi c = true ->
    Matches (regexp.Class lo hi) (String c "") rest
| Matches_Cat (r1 r2 : regexp.regex) (w1 w2 rest : string) :
    Matches r1 w1 (w2 ++ rest) -> Matches r2 w2 rest ->
    Matches (regexp.Cat r1 r2) (w1 ++ w2) rest
| Matches_AltL (r1 r2 : regexp.regex) (w rest : string) :
    Matches r1 w rest -> Matches (regexp.Alt r1 r2) w rest
| Matches_AltR (r1 r2 : regexp.regex) (w rest : string) :
    Matches r2 w rest -> Matches (regexp.Alt r1 r2) w rest
| Matches_StarNil (r : regexp.regex) (rest : string) :
    Matches (regexp.Star r) "" rest
| Matches_StarCons (r : regexp.regex) (w1 w2 rest : string) :
    Matches r w1 (w2 ++ rest) -> Matches (regexp.Star r) w2 rest ->
    Matches (regexp.Star r) (w1 ++ w2) rest
| Matches_End : Matches regexp.EndText "" "".

Definition atEnd (rest : string) : bool :=
  match rest with EmptyString => true | String _ _ => false end.

(** Every byte of [s] is a digit from 2 to 9. *)
Fixpoint digits2to9 (s : string) : bool :=
  match s with
  | EmptyString => true
  | String c s' => regexp.in_class "2" "9" c && digits2to9 s'
  end.

(** The number of a version suffix as the pattern has it: one or more
    digits, each from 2 to 9. *)
Definition versionDigits (ds : string) : bool :=
  negb (String.eqb ds "") && digits2to9 ds.

(** * Properties *)

(** ** Strings *)

Lemma from_0 (s : string) : strings.from 0 s = s.
Proof. destruct s; reflexivity. Qed.

Lemma prefix_split (p s : string) :
  String.prefix p s = true -> s = p ++ strings.from (String.length p) s.
Proof.
  revert s; induction p as [|c p IH]; intros s H.
  - simpl. now destruct s.
  - destruct s as [|c' s]; simpl in H; [discriminate|].
    destruct (ascii_dec c c') as [->|]; [|discriminate].
    simpl. f_equal. now apply IH.
Qed.

Lemma prefix_append (p y : string) : String.prefix p (p ++ y) = true.
Proof.
  induction p as [|c p IH]; simpl.
  - now destruct y.
  - destruct (ascii_dec c c); [assumption | congruence].
Qed.

Lemma Index_unfold (s sep : string) :
  strings.Index s sep =
  if String.prefix sep s then Some O
  else match s with
       | EmptyString => None
       | String _ s' => option_map S (strings.Index s' sep)
       end.
Proof. destruct s; reflexivity. Qed.

Lemma Index_some (sep s : string) (i : nat) :
  strings.Index s sep = Some i ->
  s = strings.upto i s ++ sep ++ strings.from (i + String.length sep) s.
Proof.
  revert i; induction s as [|c s IH]; intros i; rewrite Index_unfold.
  - destruct (String.prefix sep "") eqn:P; [|discriminate].
    intros [= <-]. cbn [strings.upto Nat.add append]. now apply prefix_split.
  - destruct (String.prefix sep (String c s)) eqn:P.
    + intros [= <-]. cbn [strings.upto Nat.add append]. now apply prefix_split.
    + destruct (strings.Index s sep) as [j|] eqn:E; [|discriminate].
      cbn [option_map]. intros [= <-].
      cbn [strings.upto strings.from Nat.add append]. f_equal. now apply IH.
Qed.

Lemma Index_none (sep s : string) :
  strings.Index s sep = None -> forall x y, s <> x ++ sep ++ y.
Proof.
  induction s as [|c s IH]; rewrite Index_unfold.
  - destruct (String.prefix sep "") eqn:P; [discriminate|].
    intros _ x y H. destruct x; cbn [append] in H.
    + rewrite H in P. now rewrite prefix_append in P.
    + discriminate.
  - destruct (String.prefix sep (String c s)) eqn:P; [discriminate|].
    destruct (strings.Index s sep) eqn:E; [discriminate|].
    intros _ x y H. destruct x as [|c' x]; cbn [append] in H.
    + rewrite H in P. now rewrite prefix_append in P.
    + injection H as _ H. now apply (IH eq_refl x y).
Qed.

(** [strings.Cut] splits around an occurrence of the separator, and reports
    [false] only when there is none. *)
Lemma Cut_found (s sep before after : string) :
  strings.Cut s sep = (before, after, true) -> s = before ++ sep ++ after.
Proof.
  unfold strings.Cut. destruct (strings.Index s sep) as [i|] eqn:E.
  - intros [= <- <-]. now apply Index_some.
  - discriminate.
Qed.

Lemma Cut_not_found (s sep before after : string) :
  strings.Cut s sep = (before, after, false) ->
  before = s /\ after = "" /\ forall x y, s <> x ++ sep ++ y.
Proof.
  unfold strings.Cut. destruct (strings.Index s sep) as [i|] eqn:E.
  - discriminate.
  - intros [= <- <-]. repeat split. now apply Index_none.
Qed.

(** ** RepoKind *)

(** C10: [withShim] (the method [RepoKind.Shimmed]) sends Plain to Shimmed and
    Forked to ForkedAndShimmed, leaves Shimmed and ForkedAndShimmed as they
    are, and is idempotent on every [RepoKind]. *)
Theorem withShim_idempotent :
  withShim Plain = Shimmed /\
  withShim Forked = ForkedAndShimmed /\
  withShim Shimmed = Shimmed /\
  withShim ForkedAndShimmed = ForkedAndShimmed /\
  forall k : RepoKind, withShim (withShim k) = withShim k.
Proof.
  repeat split; try reflexivity.
  intros k.
  destruct (String.eqb k Plain) eqn:E1;
    [apply String.eqb_eq in E1; subst; reflexivity|].
  destruct (String.eqb k Forked) eqn:E2;
    [apply String.eqb_eq in E2; subst; reflexivity|].
  assert (H : withShim k = k) by (unfold withShim; now rewrite E1, E2).
  now rewrite !H.
Qed.

(** ** modPathWithoutVersion *)

(** C2: what the code does on the three paths of the claim.  The pattern
    [/v[2-9]+$] has no digit 0 or 1 in its class, so "/v10" is not a suffix it
    matches and the path comes back whole; "/v1" and a path without suffix are
    unchanged, a suffix written with the digits 2 to 9 is stripped. *)
Theorem modPathWithoutVersion_v10_kept :
  modPathWithoutVersion "host/org/repo/v10" = "host/org/repo/v10" /\
  modPathWithoutVersion "host/org/repo" = "host/org/repo" /\
  modPathWithoutVersion "host/org/repo/v1" = "host/org/repo/v1" /\
  modPathWithoutVersion "host/org/repo/v2" = "host/org/repo" /\
  modPathWithoutVersion "host/org/repo/v29" = "host/org/repo".
Proof. repeat split; vm_compute; reflexivity. Qed.

(** ** The upstream lookup *)

Lemma getUpstream_loop_none (tf : string) (requires : list modfile_Require) :
  (forall entry, In entry requires -> isUpstream tf entry = false) ->
  getUpstream_loop tf requires =
  Err (errorString ("could not find upstream '" ++ tf ++ "' in go.mod")).
Proof.
  induction requires as [|entry rest IH]; intros Hnone; cbn [getUpstream_loop].
  - reflexivity.
  - fold (isUpstream tf entry). rewrite (Hnone entry (or_introl eq_refl)).
    apply IH. intros e He. apply Hnone. now right.
Qed.

Lemma getUpstream_loop_first (tf : string)
    (skipped : list modfile_Require) (entry : modfile_Require)
    (rest : list modfile_Require) :
  (forall e, In e skipped -> isUpstream tf e = false) ->
  isUpstream tf entry = true ->
  getUpstream_loop tf (skipped ++ entry :: rest)%list = Ok entry.
Proof.
  induction skipped as [|e skipped IH]; intros Hskip Hentry;
    cbn [getUpstream_loop app].
  - fold (isUpstream tf entry). now rewrite Hentry.
  - fold (isUpstream tf e). rewrite (Hskip e (or_introl eq_refl)).
    apply IH; [|assumption]. intros e' He'. apply Hskip. now right.
Qed.

Lemma getUpstream_loop_ok (tf : string) (requires : list modfile_Require)
    (entry : modfile_Require) :
  getUpstream_loop tf requires = Ok entry ->
  exists skipped rest,
    requires = (skipped ++ entry :: rest)%list /\
    (forall e, In e skipped -> isUpstream tf e = false) /\
    isUpstream tf entry = true.
Proof.
  induction requires as [|e requires IH]; cbn [getUpstream_loop].
  - discriminate.
  - fold (isUpstream tf e). destruct (isUpstream tf e) eqn:E.
    + intros [= <-]. exists [], requires. repeat split; [|assumption].
      intros ? [].
    + intros H. destruct (IH H) as (skipped & rest & -> & Hskip & Hentry).
      exists (e :: skipped), rest. repeat split; [|assumption].
      intros e' [<-|He']; [assumption | now apply Hskip].
Qed.

(** C4, as the code has it: the lookup returns the first require entry, in
    manifest order, whose path without version suffix ends with
    "terraform-provider-<name>", whatever follows it, further matching
    entries included; it fails exactly when no entry matches, and then
    [repoKind] fails on a repository without shim directory. *)
Theorem getUpstream_first_match (name : string) (file : modfile_File) :
  let tf := "terraform-provider-" ++ name in
  let missing :=
    errorString ("could not find upstream '" ++ tf ++ "' in go.mod") in
  (forall skipped entry rest,
      Require file = (skipped ++ entry :: rest)%list ->
      (forall e, In e skipped -> isUpstream tf e = false) ->
      isUpstream tf entry = true ->
      getUpstream tf file = Ok entry) /\
  ((forall e, In e (Require file) -> isUpstream tf e = false) ->
   getUpstream tf file = Err missing /\
   forall join err shim path,
     repoKind join (Parsed file) (StatErr err true) shim path name =
     Err (Errorf_w "go.mod: " missing)) /\
  (forall err, getUpstream tf file = Err err ->
     err = missing /\
     forall e, In e (Require file) -> isUpstream tf e = false).
Proof.
  intros tf missing. unfold getUpstream. split; [|split].
  - intros skipped entry rest -> Hskip Hentry.
    now apply getUpstream_loop_first.
  - intros Hnone. pose proof (getUpstream_loop_none tf _ Hnone) as E. split.
    + exact E.
    + intros join err shim path. unfold repoKind, findUpstream, getUpstream.
      fold tf. now rewrite E.
  - intros err Herr.
    destruct (existsb (isUpstream tf) (Require file)) eqn:Ex.
    + apply existsb_exists in Ex. destruct Ex as (e & He & Hm).
      exfalso. clear missing. revert Herr.
      induction (Require file) as [|e' l IH]; [destruct He|].
      cbn [getUpstream_loop]. fold (isUpstream tf e').
      destruct (isUpstream tf e') eqn:E'; [discriminate|].
      destruct He as [->|He]; [congruence | now apply IH].
    + assert (Hnone : forall e, In e (Require file) -> isUpstream tf e = false).
      { intros e He. destruct (isUpstream tf e) eqn:E; [|reflexivity].
        assert (existsb (isUpstream tf) (Require file) = true)
          by (apply existsb_exists; eauto).
        congruence. }
      split; [|exact Hnone].
      rewrite (getUpstream_loop_none tf _ Hnone) in Herr.
      now injection Herr as <-.
Qed.

Lemma getUpstream_first_match_witness :
  getUpstream "terraform-provider-foo" Fixture.ambiguous = Ok Fixture.upstream_foo /\
  getUpstream "terraform-provider-foo" Fixture.unrelated =
  Err (errorString "could not find upstream 'terraform-provider-foo' in go.mod").
Proof.
  split.
  - apply (proj1 (getUpstream_first_match "foo" Fixture.ambiguous)
             [Fixture.bridge] Fixture.upstream_foo [Fixture.other_foo]).
    + reflexivity.
    + intros e [<-|[]]. vm_compute. reflexivity.
    + vm_compute. reflexivity.
  - apply (proj1 (proj2 (getUpstream_first_match "foo" Fixture.unrelated))).
    intros e [<-|[]]. vm_compute. reflexivity.
Defined.

(** C4, as stated, fails: a manifest with two require entries whose paths end
    with "terraform-provider-foo" (one of them after stripping "/v2") is
    classified, with the first of them as upstream. *)
Lemma getUpstream_ambiguous_not_fatal :
  isUpstream "terraform-provider-foo" Fixture.upstream_foo = true /\
  isUpstream "terraform-provider-foo" Fixture.other_foo = true /\
  Fixture.upstream_foo <> Fixture.other_foo /\
  Require Fixture.ambiguous =
    [Fixture.bridge; Fixture.upstream_foo; Fixture.other_foo] /\
  getUpstream "terraform-provider-foo" Fixture.ambiguous = Ok Fixture.upstream_foo /\
  repoKind Triple.slash_Join (Parsed Fixture.ambiguous) Fixture.notExist
    Fixture.noManifest "repo" "foo" =
  Ok {| Kind := Plain; Upstream := Mod Fixture.upstream_foo; Fork := None |}.
Proof. repeat split; try (vm_compute; reflexivity). discriminate. Qed.

(** ** The classification *)

(** What a successful [repoKind] went through. *)
Lemma repoKind_ok_inv (join : list string -> string) (outer : manifest)
    (shimStat : statResult) (shim : manifest) (path name : string)
    (out : GoMod) :
  repoKind join outer shimStat shim path name = Ok out ->
  exists goMod upstream shimmed fork,
    outer = Parsed goMod /\
    findUpstream join goMod shimStat shim path ("terraform-provider-" ++ name)
      = Ok (upstream, shimmed) /\
    findFork ("terraform-provider-" ++ name) upstream (Replace goMod) = Ok fork /\
    out = {| Kind := (if shimmed : bool
                      then withShim (match fork with None => Plain | Some _ => Forked end)
                      else match fork with None => Plain | Some _ => Forked end);
             Upstream := Mod upstream; Fork := fork |}.
Proof.
  unfold repoKind. destruct outer as [err|err|goMod]; try discriminate.
  destruct (findUpstream _ _ _ _ _ _) as [[upstream shimmed]|err] eqn:U;
    [|discriminate].
  destruct (findFork _ _ _) as [fork|err] eqn:F; [|discriminate].
  intros [= <-]. now exists goMod, upstream, shimmed, fork.
Qed.

(** C6: in every result that [repoKind] returns, the Fork descriptor is
    present exactly when the kind is forked ([IsForked], that is Forked or
    ForkedAndShimmed). *)
Theorem repoKind_fork_iff_forked (join : list string -> string)
    (outer : manifest) (shimStat : statResult) (shim : manifest)
    (path name : string) (out : GoMod) :
  repoKind join outer shimStat shim path name = Ok out ->
  (Fork out <> None <-> IsForked (Kind out) = true) /\
  (IsForked (Kind out) = true <->
   Kind out = Forked \/ Kind out = ForkedAndShimmed).
Proof.
  intros H.
  destruct (repoKind_ok_inv _ _ _ _ _ _ _ H)
    as (goMod & upstream & shimmed & fork & _ & _ & _ & ->).
  cbn [Fork Kind].
  destruct shimmed, fork as [replace|]; vm_compute;
    repeat split; intros; try congruence; try discriminate; auto;
    match goal with H : _ \/ _ |- _ => destruct H; discriminate end.
Qed.

Lemma repoKind_fork_iff_forked_witness :
  exists out,
    repoKind Triple.slash_Join (Parsed Fixture.forked) Fixture.notExist
      Fixture.noManifest "repo" "foo" = Ok out /\
    (Fork out <> None <-> IsForked (Kind out) = true).
Proof.
  eexists. split.
  - vm_compute. reflexivity.
  - apply (repoKind_fork_iff_forked Triple.slash_Join (Parsed Fixture.forked)
             Fixture.notExist Fixture.noManifest "repo" "foo").
    vm_compute. reflexivity.
Defined.

(** C5: when the shim directory exists, a successful [repoKind] records a
    shimmed kind and takes Upstream from the upstream lookup on the shim's
    manifest; the require entries of the outer manifest play no part, the
    result is the same whatever they are. *)
Theorem repoKind_shim_upstream (join : list string -> string)
    (goMod : modfile_File) (shim : manifest) (path name : string)
    (out : GoMod) :
  repoKind join (Parsed goMod) StatOk shim path name = Ok out ->
  IsShimmed (Kind out) = true /\
  (exists shimMod upstream,
      shim = Parsed shimMod /\
      getUpstream ("terraform-provider-" ++ name) shimMod = Ok upstream /\
      Upstream out = Mod upstream) /\
  (forall requires,
      repoKind join (Parsed {| Require := requires; Replace := Replace goMod |})
        StatOk shim path name = Ok out).
Proof.
  intros H. split; [|split].
  - destruct (repoKind_ok_inv _ _ _ _ _ _ _ H)
      as (goMod' & upstream & shimmed & fork & [= <-] & U & _ & ->).
    unfold findUpstream in U. destruct shim as [e|e|shimMod]; try discriminate.
    destruct (getUpstream _ shimMod); [|discriminate].
    injection U as _ <-. cbn [Kind]. now destruct fork.
  - destruct (repoKind_ok_inv _ _ _ _ _ _ _ H)
      as (goMod' & upstream & shimmed & fork & [= <-] & U & _ & ->).
    unfold findUpstream in U. destruct shim as [e|e|shimMod]; try discriminate.
    destruct (getUpstream _ shimMod) as [u|] eqn:E; [|discriminate].
    injection U as <- _. now exists shimMod, u.
  - intros requires. rewrite <- H. reflexivity.
Qed.

Lemma repoKind_shim_upstream_witness :
  exists out,
    repoKind Triple.slash_Join (Parsed Fixture.forked) StatOk
      (Parsed Fixture.shim_manifest) "repo" "foo" = Ok out /\
    Upstream out = Mod Fixture.other_foo /\
    getUpstream "terraform-provider-foo" Fixture.forked = Ok Fixture.upstream_foo /\
    IsShimmed (Kind out) = true.
Proof.
  eexists. split; [|split; [|split]].
  - vm_compute. reflexivity.
  - reflexivity.
  - vm_compute. reflexivity.
  - apply (repoKind_shim_upstream Triple.slash_Join Fixture.forked
             (Parsed Fixture.shim_manifest) "repo" "foo").
    vm_compute. reflexivity.
Defined.

(** ** Fork detection *)

(** [orgOf before] is the last "/"-separated segment of [before]. *)
Lemma orgOf_segment (before : string) :
  has_byte "/" (orgOf before) = false /\
  (before = orgOf before \/ exists pre, before = pre ++ "/" ++ orgOf before).
Proof.
  unfold orgOf.
  assert (G : (strings.LastIndexByte before "/" = -1 /\
               has_byte "/" before = false)%Z \/
              ((0 <= strings.LastIndexByte before "/")%Z /\
               has_byte "/"
                 (strings.from (Z.to_nat (strings.LastIndexByte before "/" + 1))
                    before) = false /\
               exists pre,
                 before = pre ++ "/" ++
                   strings.from (Z.to_nat (strings.LastIndexByte before "/" + 1))
                     before)).
  { induction before as [|b s IH]; cbn [strings.LastIndexByte].
    - left. split; reflexivity.
    - destruct IH as [[E N]|(P & N & pre & E)].
      + rewrite E. cbn [Z.leb Z.compare]. destruct (Ascii.eqb_spec b "/") as [->|Hb].
        * right. split; [lia|]. cbn. split; [exact N|].
          now exists "".
        * left. split; [reflexivity|]. cbn [has_byte].
          apply Ascii.eqb_neq in Hb. now rewrite Hb, N.
      + destruct (Z.leb_spec 0 (strings.LastIndexByte s "/")) as [_|]; [|lia].
        right. split; [lia|].
        replace (Z.to_nat (strings.LastIndexByte s "/" + 1 + 1))
          with (S (Z.to_nat (strings.LastIndexByte s "/" + 1))) by lia.
        cbn [strings.from]. split; [exact N|].
        exists (String b pre). cbn [append]. f_equal. exact E. }
  destruct G as [[E N]|(P & N & pre & E)].
  - rewrite E. cbn. auto.
  - split; [exact N|]. right. now exists pre.
Qed.

Lemma findFork_skip (tf : string) (upstream : modfile_Require)
    (skipped rest : list modfile_Replace) :
  (forall r, In r skipped -> Path (Old r) <> Path (Mod upstream)) ->
  findFork tf upstream (skipped ++ rest)%list = findFork tf upstream rest.
Proof.
  induction skipped as [|r skipped IH]; intros Hskip; cbn [findFork app].
  - reflexivity.
  - assert (E : String.eqb (Path (Old r)) (Path (Mod upstream)) = false)
      by (apply String.eqb_neq, Hskip; now left).
    rewrite E. cbn [negb]. apply IH. intros r' Hr'. apply Hskip. now right.
Qed.

(** C1, as the code has it: when the first replace directive whose original
    path is the upstream path has a new path in which
    "/terraform-provider-<name>" occurs, and the segment before its first
    occurrence ([orgOf before]: what stands after the last "/" of the text
    before it) is not "pulumi", [repoKind] returns an error.  The error is
    "go.mod: tf fork maintained by '<org>': expected 'pulumi'" when nothing
    follows the occurrence, or what follows matches the version-suffix
    pattern; otherwise it is "go.mod: replace has incorrect repo: '<path>'". *)
Theorem repoKind_untrusted_fork (join : list string -> string)
    (goMod : modfile_File) (shimStat : statResult) (shim : manifest)
    (path name : string) (upstream : modfile_Require) (shimmed : bool)
    (skipped : list modfile_Replace) (replace : modfile_Replace)
    (rest : list modfile_Replace) (before after : string) :
  findUpstream join goMod shimStat shim path ("terraform-provider-" ++ name)
    = Ok (upstream, shimmed) ->
  Replace goMod = (skipped ++ replace :: rest)%list ->
  (forall r, In r skipped -> Path (Old r) <> Path (Mod upstream)) ->
  Path (Old replace) = Path (Mod upstream) ->
  strings.Cut (Path (New replace)) ("/" ++ "terraform-provider-" ++ name)
    = (before, after, true) ->
  orgOf before <> "pulumi" ->
  (Path (New replace)
   = before ++ ("/" ++ "terraform-provider-" ++ name) ++ after /\
   has_byte "/" (orgOf before) = false /\
   (before = orgOf before \/ exists pre, before = pre ++ "/" ++ orgOf before)) /\
  (exists err,
      repoKind join (Parsed goMod) shimStat shim path name = Err err) /\
  (after = "" \/ regexp.MatchString versionSuffix after = true ->
   repoKind join (Parsed goMod) shimStat shim path name =
   Err (errorString ("go.mod: tf fork maintained by '" ++ orgOf before
                     ++ "': expected 'pulumi'"))) /\
  (after <> "" -> regexp.MatchString versionSuffix after = false ->
   repoKind join (Parsed goMod) shimStat shim path name =
   Err (errorString ("go.mod: replace has incorrect repo: '"
                     ++ Path (New replace) ++ "'"))).
Proof.
  intros U R Hskip Hold Hcut Horg.
  assert (E : repoKind join (Parsed goMod) shimStat shim path name =
              if negb (String.eqb after "")
                 && negb (regexp.MatchString versionSuffix after)
              then Err (errorString ("go.mod: replace has incorrect repo: '"
                                     ++ Path (New replace) ++ "'"))
              else Err (errorString ("go.mod: tf fork maintained by '"
                                     ++ orgOf before ++ "': expected 'pulumi'"))).
  { unfold repoKind. rewrite U, R, (findFork_skip _ _ _ _ Hskip).
    cbn [findFork]. rewrite Hold, String.eqb_refl. cbn [negb].
    change ("/" ++ ("terraform-provider-" ++ name))
      with ("/" ++ "terraform-provider-" ++ name).
    rewrite Hcut. cbn [negb orb].
    destruct (negb (String.eqb after "")
              && negb (regexp.MatchString versionSuffix after)); [reflexivity|].
    fold (orgOf before).
    apply String.eqb_neq in Horg. now rewrite Horg. }
  rewrite E. split; [|split; [|split]].
  - split; [now apply Cut_found | apply orgOf_segment].
  - destruct (negb _ && negb _); eauto.
  - intros [->|M]; [reflexivity|]. rewrite M. now rewrite andb_false_r.
  - intros Hne M. apply String.eqb_neq in Hne. now rewrite Hne, M.
Qed.

Lemma repoKind_untrusted_fork_witness :
  orgOf "github.com/evil" = "evil" /\
  repoKind Triple.slash_Join (Parsed Fixture.foreign) Fixture.notExist
    Fixture.noManifest "repo" "foo" =
  Err (errorString "go.mod: tf fork maintained by 'evil': expected 'pulumi'").
Proof.
  split; [reflexivity|].
  refine (proj1 (proj2 (proj2 (repoKind_untrusted_fork Triple.slash_Join
            Fixture.foreign Fixture.notExist Fixture.noManifest "repo" "foo"
            Fixture.upstream_foo false []
            (Fixture.repl "github.com/hashicorp/terraform-provider-foo"
               "github.com/evil/terraform-provider-foo" "v1.2.1")
            [] "github.com/evil" "" _ _ _ _ _ _))) _).
  - vm_compute. reflexivity.
  - reflexivity.
  - intros r [].
  - reflexivity.
  - vm_compute. reflexivity.
  - vm_compute. discriminate.
  - now left.
Defined.

(** C1, as stated, fails twice.  On a manifest whose only directive for the
    upstream path points to ".../evil/terraform-provider-foo/extra" the error
    is the one for a malformed replacement path, not the one naming the
    maintainer; and on a manifest with two directives for the upstream path,
    the first to the trusted fork and the second to another organization,
    the scan stops at the first and classification succeeds. *)
Lemma repoKind_untrusted_fork_other_outcomes :
  (strings.Cut "github.com/evil/terraform-provider-foo/extra"
     "/terraform-provider-foo" = ("github.com/evil", "/extra", true) /\
   orgOf "github.com/evil" = "evil" /\
   repoKind Triple.slash_Join (Parsed Fixture.foreign_subdir) Fixture.notExist
     Fixture.noManifest "repo" "foo" =
   Err (errorString "go.mod: replace has incorrect repo: 'github.com/evil/terraform-provider-foo/extra'"))
  /\
  (strings.Cut "github.com/evil/terraform-provider-foo"
     "/terraform-provider-foo" = ("github.com/evil", "", true) /\
   map (fun r => Path (Old r)) (Replace Fixture.forked_twice) =
     [Path (Mod Fixture.upstream_foo); Path (Mod Fixture.upstream_foo)] /\
   map (fun r => Path (New r)) (Replace Fixture.forked_twice) =
     ["github.com/pulumi/terraform-provider-foo/v4";
      "github.com/evil/terraform-provider-foo"] /\
   exists out,
     repoKind Triple.slash_Join (Parsed Fixture.forked_twice) Fixture.notExist
       Fixture.noManifest "repo" "foo" = Ok out /\ Kind out = Forked).
Proof.
  split; repeat split; try (vm_compute; reflexivity).
  eexists. split; vm_compute; reflexivity.
Qed.

(** ** The version resolver *)

Lemma versionToken_shape (title token : string) :
  versionToken title = Some token -> upgradeTitle title token.
Proof.
  unfold versionToken, upgradeTitle.
  destruct (strings.Cut title "Upgrade terraform-provider-")
    as [[pre nameToVersion] found] eqn:C1.
  destruct found; cbn [negb]; [|discriminate].
  destruct (strings.Cut nameToVersion " to ") as [[mid version] found] eqn:C2.
  destruct found; cbn [negb]; [|discriminate].
  intros [= <-]. exists pre, mid.
  apply Cut_found in C1. apply Cut_found in C2. now rewrite <- C2.
Qed.

(** A title without version token is not of the shape, whatever the
    occurrence of the prefix one looks at. *)

Lemma append_assoc (x y z : string) : (x ++ y) ++ z = x ++ y ++ z.
Proof. induction x as [|c x IH]; cbn [append]; [reflexivity | now rewrite IH]. Qed.

Lemma length_append (x y : string) :
  String.length (x ++ y) = String.length x + String.length y.
Proof. induction x as [|c x IH]; cbn [append String.length Nat.add]; auto. Qed.

Lemma from_append (n : nat) (x y : string) :
  n <= String.length x -> strings.from n (x ++ y) = strings.from n x ++ y.
Proof.
  revert x; induction n as [|n IH]; intros x Hn; [reflexivity|].
  destruct x as [|c x]; cbn [String.length] in Hn; [lia|].
  cbn [append strings.from]. apply IH. lia.
Qed.

Lemma Index_first (sep s : string) (i : nat) (x y : string) :
  strings.Index s sep = Some i -> s = x ++ sep ++ y -> i <= String.length x.
Proof.
  revert i x; induction s as [|c s IH]; intros i x; rewrite Index_unfold.
  - destruct (String.prefix sep ""); [|discriminate]. intros [= <-] _. lia.
  - destruct (String.prefix sep (String c s)) eqn:P.
    + intros [= <-] _. lia.
    + destruct (strings.Index s sep) as [j|] eqn:E; [|discriminate].
      cbn [option_map]. intros [= <-] H.
      destruct x as [|c' x]; cbn [append] in H.
      * rewrite H in P. now rewrite prefix_append in P.
      * injection H as _ H. cbn [String.length].
        specialize (IH j x eq_refl H). lia.
Qed.

Lemma versionToken_none (title : string) :
  versionToken title = None -> forall token, ~ upgradeTitle title token.
Proof.
  unfold versionToken, upgradeTitle, strings.Cut.
  destruct (strings.Index title "Upgrade terraform-provider-") as [i|] eqn:I1.
  - cbn [negb].
    destruct (strings.Index _ " to ") as [j|] eqn:I2; cbn [negb];
      [discriminate|].
    intros _ token (pre & mid & H).
    pose proof (Index_first _ _ _ _ _ I1 H) as Hi.
    apply (Index_none _ _ I2
             (strings.from (i + String.length "Upgrade terraform-provider-")
                (pre ++ "Upgrade terraform-provider-") ++ mid) token).
    rewrite H at 1. rewrite <- (append_assoc pre), from_append.
    + now rewrite append_assoc.
    + rewrite length_append. lia.
  - intros _ token (pre & mid & H). apply (Index_none _ _ I1 _ _ H).
Qed.

(** The two [strings.Cut] of [versionToken] against the first occurrences. *)

Lemma length_upto_le (i : nat) (s : string) :
  String.length (strings.upto i s) <= i.
Proof.
  revert s; induction i as [|i IH]; intros s; [cbn; lia|].
  destruct s as [|c s]; cbn [strings.upto String.length]; [lia|].
  specialize (IH s). lia.
Qed.

Lemma append_inj_length (x1 y1 x2 y2 : string) :
  x1 ++ y1 = x2 ++ y2 -> String.length x1 = String.length x2 ->
  x1 = x2 /\ y1 = y2.
Proof.
  revert x2; induction x1 as [|c x1 IH]; intros [|c2 x2]; cbn [append String.length];
    intros E L; try discriminate; [auto|].
  injection E as -> E. injection L as L.
  destruct (IH x2 E L) as [-> ->]. auto.
Qed.

Lemma firstCut_unique (s sep b1 a1 b2 a2 : string) :
  firstCut s sep b1 a1 -> firstCut s sep b2 a2 -> b1 = b2 /\ a1 = a2.
Proof.
  intros [E1 F1] [E2 F2].
  pose proof (F1 b2 a2 E2) as L1. pose proof (F2 b1 a1 E1) as L2.
  assert (E : b1 ++ sep ++ a1 = b2 ++ sep ++ a2) by congruence.
  destruct (append_inj_length _ _ _ _ E ltac:(lia)) as [-> E'].
  split; [reflexivity|].
  now destruct (append_inj_length _ _ _ _ E' eq_refl).
Qed.

Lemma Cut_firstCut (s sep before after : string) :
  strings.Cut s sep = (before, after, true) <-> firstCut s sep before after.
Proof.
  assert (Fwd : forall b a, strings.Cut s sep = (b, a, true) ->
                            firstCut s sep b a).
  { intros b a C. split; [now apply Cut_found|].
    unfold strings.Cut in C.
    destruct (strings.Index s sep) as [i|] eqn:I; [|discriminate].
    injection C as <- _. intros x y E.
    pose proof (Index_first _ _ _ _ _ I E).
    pose proof (length_upto_le i s). lia. }
  split; [apply Fwd|]. intros F.
  destruct (strings.Cut s sep) as [[b a] found] eqn:C. destruct found.
  - destruct (firstCut_unique _ _ _ _ _ _ (Fwd b a eq_refl) F) as [-> ->].
    reflexivity.
  - apply Cut_not_found in C. destruct C as (_ & _ & N).
    destruct F as [E _]. now elim (N _ _ E).
Qed.

Lemma versionToken_tokenOf (title token : string) :
  versionToken title = Some token <-> tokenOf title token.
Proof.
  unfold versionToken, tokenOf. split.
  - destruct (strings.Cut title "Upgrade terraform-provider-")
      as [[pre rest] found] eqn:C1.
    destruct found; cbn [negb]; [|discriminate].
    destruct (strings.Cut rest " to ") as [[mid version] found] eqn:C2.
    destruct found; cbn [negb]; [|discriminate].
    intros [= <-]. exists pre, rest, mid.
    split; now apply Cut_firstCut.
  - intros (pre & rest & mid & F1 & F2).
    apply Cut_firstCut in F1, F2. now rewrite F1, F2.
Qed.

Lemma tokenOf_unique (title token1 token2 : string) :
  tokenOf title token1 -> tokenOf title token2 -> token1 = token2.
Proof.
  intros H1 H2. apply versionToken_tokenOf in H1, H2. congruence.
Qed.

Lemma tokenOf_shape (title : string) :
  (exists token, tokenOf title token) <->
  (exists token, upgradeTitle title token).
Proof.
  split.
  - intros [token H]. exists token.
    now apply versionToken_shape, versionToken_tokenOf.
  - intros [token H]. destruct (versionToken title) as [t|] eqn:T.
    + exists t. now apply versionToken_tokenOf.
    + now elim (versionToken_none title T token).
Qed.

Section VersionResolverFacts.

Variable V : Type.
Variable NewVersion : string -> option V.
Variable LessThan : V -> V -> bool.
Variable sort_Slice : (V -> V -> bool) -> list V -> list V.

(** [LessThan] is the strict part of a total preorder. *)
Hypothesis LessThan_irrefl : forall a, LessThan a a = false.
Hypothesis LessThan_negtrans :
  forall a b c,
    LessThan a b = false -> LessThan b c = false -> LessThan a c = false.

(** [sort.Slice] with the comparison of [getExpectedTarget] permutes the
    slice so that no element is less, in the sense of that comparison, than
    the one before it. *)
Hypothesis sort_Slice_perm :
  forall l, Permutation l (sort_Slice (fun vi vj => LessThan vj vi) l).
Hypothesis sort_Slice_sorted :
  forall l,
    Sorted (fun a b => LessThan a b = false)
      (sort_Slice (fun vi vj => LessThan vj vi) l).

Lemma collectVersions_In_code (titles : list string) (v : V) :
  In v (collectVersions V NewVersion titles) <->
  exists title token,
    In title titles /\ versionToken title = Some token /\
    NewVersion token = Some v.
Proof.
  induction titles as [|title rest IH];
    cbn [collectVersions].
  - split; [intros [] | intros (t & k & [] & _)].
  - destruct (versionToken title) as [token|] eqn:T.
    + destruct (NewVersion token) as [v'|] eqn:N.
      * split.
        -- intros [<-|Hin].
           ++ exists title, token. repeat split; auto. now left.
           ++ apply IH in Hin. destruct Hin as (t & k & Ht & Hk & Hv).
              exists t, k. repeat split; auto. now right.
        -- intros (t & k & [<-|Ht] & Hk & Hv).
           ++ left. congruence.
           ++ right. apply IH. now exists t, k.
      * rewrite IH. split.
        -- intros (t & k & Ht & Hk & Hv). exists t, k.
           repeat split; auto. now right.
        -- intros (t & k & [<-|Ht] & Hk & Hv); [congruence|].
           now exists t, k.
    + rewrite IH. split.
      * intros (t & k & Ht & Hk & Hv). exists t, k.
        repeat split; auto. now right.
      * intros (t & k & [<-|Ht] & Hk & Hv); [congruence|].
        now exists t, k.
Qed.

Lemma collectVersions_In (titles : list string) (v : V) :
  In v (collectVersions V NewVersion titles) <-> parsesTo NewVersion titles v.
Proof.
  rewrite collectVersions_In_code. unfold parsesTo.
  split; intros (t & k & Ht & Hk & Hv); exists t, k;
    repeat split; auto; now apply versionToken_tokenOf.
Qed.

Lemma sorted_head_maximal (m : V) (l : list V) :
  Sorted (fun a b => LessThan a b = false) (m :: l) ->
  forall w, In w (m :: l) -> LessThan m w = false.
Proof.
  intros S w [<-|Hw]; [apply LessThan_irrefl|].
  apply Sorted_StronglySorted in S.
  - apply StronglySorted_inv in S. destruct S as [_ F].
    rewrite Forall_forall in F. now apply F.
  - intros a b c. apply LessThan_negtrans.
Qed.

(** C3, as the code has it: among the titles, those count in which
    "Upgrade terraform-provider-" occurs and, after its first occurrence,
    " to " occurs; the version token is what follows the first such
    " to " ([tokenOf]: one token per title at most, and a title has one
    exactly when it has the shape at all), and the provider name standing
    in the title is not compared with the requested one.  Tokens that
    [semver.NewVersion] rejects are skipped.  The result is one of the
    parsed versions, and no parsed version is greater; the error "no
    upgrade found" is returned exactly when no title parses to a
    version. *)
Theorem getExpectedTarget_maximum (gh : string -> ghIssues)
    (name : string) (titles : list string) :
  gh ("--repo=pulumi/" ++ name) = GhTitles titles ->
  (getExpectedTarget V NewVersion LessThan sort_Slice gh name
     = Err (errorString "no upgrade found")
   <-> forall v, ~ parsesTo NewVersion titles v) /\
  (forall w, parsesTo NewVersion titles w ->
     exists v,
       getExpectedTarget V NewVersion LessThan sort_Slice gh name = Ok v /\
       parsesTo NewVersion titles v /\
       forall w', parsesTo NewVersion titles w' -> LessThan v w' = false) /\
  (forall title token1 token2,
     tokenOf title token1 -> tokenOf title token2 -> token1 = token2) /\
  (forall title,
     (exists token, tokenOf title token) <->
     (exists token, upgradeTitle title token)) /\
  (forall title token,
     versionToken title = Some token <-> tokenOf title token).
Proof.
  intros G. unfold getExpectedTarget. rewrite G.
  pose proof (collectVersions_In titles) as I.
  pose proof (sort_Slice_perm (collectVersions V NewVersion titles)) as P.
  pose proof (sort_Slice_sorted (collectVersions V NewVersion titles)) as S.
  destruct (collectVersions V NewVersion titles) as [|v0 vs] eqn:E;
    cbn [List.length Nat.eqb].
  - split; [|split].
    + split; [|reflexivity]. intros _ v Hv. now apply I in Hv.
    + intros w Hw. now apply I in Hw.
    + split; [exact tokenOf_unique|]. split; [exact tokenOf_shape|].
      exact versionToken_tokenOf.
  - destruct (sort_Slice _ (v0 :: vs)) as [|m sorted] eqn:Q.
    + apply Permutation_sym, Permutation_nil in P. discriminate.
    + assert (Hm : parsesTo NewVersion titles m).
      { apply I. apply Permutation_sym in P.
        apply (Permutation_in _ P). now left. }
      split; [|split].
      * split; [discriminate|]. intros Hnone. now elim (Hnone m).
      * intros w _. exists m. repeat split; [exact Hm|].
        intros w' Hw'. apply (sorted_head_maximal m sorted S).
        apply (Permutation_in _ P). now apply I.
      * split; [exact tokenOf_unique|]. split; [exact tokenOf_shape|].
      exact versionToken_tokenOf.
Qed.

End VersionResolverFacts.

(** ** The instance *)

Module TripleFacts.

Lemma LessThan_spec (a b : Triple.t) :
  Triple.LessThan a b = true <->
  (fst (fst a) < fst (fst b) \/
   (fst (fst a) = fst (fst b) /\
    (snd (fst a) < snd (fst b) \/
     (snd (fst a) = snd (fst b) /\ snd a < snd b))))%nat.
Proof.
  destruct a as [[a1 a2] a3], b as [[b1 b2] b3]. cbn [Triple.LessThan fst snd].
  rewrite !orb_true_iff, !andb_true_iff, !orb_true_iff, !andb_true_iff,
    !Nat.ltb_lt, !Nat.eqb_eq. reflexivity.
Qed.

Lemma LessThan_irrefl (a : Triple.t) : Triple.LessThan a a = false.
Proof.
  apply not_true_iff_false. rewrite LessThan_spec. lia.
Qed.

Lemma LessThan_asym (a b : Triple.t) :
  Triple.LessThan a b = true -> Triple.LessThan b a = false.
Proof.
  rewrite <- not_true_iff_false, !LessThan_spec. lia.
Qed.

Lemma LessThan_negtrans (a b c : Triple.t) :
  Triple.LessThan a b = false -> Triple.LessThan b c = false ->
  Triple.LessThan a c = false.
Proof.
  rewrite <- !not_true_iff_false, !LessThan_spec. lia.
Qed.

Section Insertion.

Variable A : Type.
Variable less : A -> A -> bool.
Hypothesis less_asym : forall a b, less a b = true -> less b a = false.

Lemma insert_perm (x : A) (l : list A) :
  Permutation (x :: l) (Triple.insert less x l).
Proof.
  induction l as [|y r IH]; cbn [Triple.insert]; [reflexivity|].
  destruct (less x y); [reflexivity|].
  rewrite perm_swap. now constructor.
Qed.

Lemma sort_perm (l : list A) : Permutation l (Triple.sort less l).
Proof.
  induction l as [|x r IH]; cbn [Triple.sort]; [reflexivity|].
  rewrite <- insert_perm. now constructor.
Qed.

Lemma insert_sorted (x : A) (l : list A) :
  Sorted (fun a b => less b a = false) l ->
  Sorted (fun a b => less b a = false) (Triple.insert less x l).
Proof.
  induction l as [|y r IH]; intros S; cbn [Triple.insert].
  - repeat constructor.
  - destruct (less x y) eqn:E.
    + constructor; [assumption|]. constructor. now apply less_asym.
    + apply Sorted_inv in S. destruct S as [S H].
      constructor; [now apply IH|].
      destruct r as [|z r]; cbn [Triple.insert].
      * now constructor.
      * destruct (less x z); constructor; [assumption|].
        now apply HdRel_inv in H.
Qed.

Lemma sort_sorted (l : list A) :
  Sorted (fun a b => less b a = false) (Triple.sort less l).
Proof.
  induction l as [|x r IH]; cbn [Triple.sort]; [constructor|].
  now apply insert_sorted.
Qed.

End Insertion.

End TripleFacts.

Lemma getExpectedTarget_maximum_witness :
  exists v,
    getExpectedTarget Triple.t Triple.NewVersion Triple.LessThan
      (@Triple.sort Triple.t)
      (fun _ => GhTitles ["Upgrade terraform-provider-foo to 1.2.0";
                          "Upgrade terraform-provider-foo to 1.3.0";
                          "unrelated issue"]) "foo" = Ok v /\
    v = (1, 3, 0).
Proof.
  destruct (proj1 (proj2
              (getExpectedTarget_maximum Triple.t Triple.NewVersion
                 Triple.LessThan (@Triple.sort Triple.t)
                 TripleFacts.LessThan_irrefl TripleFacts.LessThan_negtrans
                 (TripleFacts.sort_perm Triple.t _)
                 (TripleFacts.sort_sorted Triple.t
                    (fun vi vj => Triple.LessThan vj vi)
                    (fun a b => TripleFacts.LessThan_asym b a))
                 (fun _ => GhTitles ["Upgrade terraform-provider-foo to 1.2.0";
                                     "Upgrade terraform-provider-foo to 1.3.0";
                                     "unrelated issue"])
                 "foo" _ eq_refl)) (1, 2, 0))
    as (v & Hv & _).
  - exists "Upgrade terraform-provider-foo to 1.2.0", "1.2.0".
    split; [now left|].
    split; [apply versionToken_tokenOf|]; vm_compute; reflexivity.
  - exists v. split; [exact Hv|].
    vm_compute in Hv. now injection Hv as <-.
Defined.

(** C3, as stated, fails: asked about provider "foo", the resolver takes the
    version of a title that names provider "bar", and returns it where the
    titles for "foo" give a smaller maximum, or give none at all. *)
Lemma getExpectedTarget_other_provider :
  getExpectedTarget Triple.t Triple.NewVersion Triple.LessThan
    (@Triple.sort Triple.t)
    (fun _ => GhTitles ["Upgrade terraform-provider-bar to 9.9.9";
                        "Upgrade terraform-provider-foo to 1.3.0"]) "foo"
    = Ok (9, 9, 9) /\
  getExpectedTarget Triple.t Triple.NewVersion Triple.LessThan
    (@Triple.sort Triple.t)
    (fun _ => GhTitles ["Upgrade terraform-provider-bar to 9.9.9"]) "foo"
    = Ok (9, 9, 9) /\
  versionToken "Upgrade terraform-provider-bar to 9.9.9" = Some "9.9.9".
Proof. repeat split; vm_compute; reflexivity. Qed.

(** ** Default branch *)

Lemma pickBranch_spec (branches : list string) (targetBranch : string) :
  (In "main" branches -> pickBranch branches targetBranch = "main") /\
  (~ In "main" branches -> In "master" branches ->
   pickBranch branches targetBranch = "master") /\
  (~ In "main" branches -> ~ In "master" branches ->
   pickBranch branches targetBranch = targetBranch).
Proof.
  revert targetBranch; induction branches as [|branch rest IH];
    intros targetBranch; cbn [pickBranch In].
  - repeat split; intros; try reflexivity; contradiction.
  - destruct (String.eqb_spec branch "main") as [->|Hmain].
    + repeat split; intros; try reflexivity; exfalso; auto.
    + destruct (String.eqb_spec branch "master") as [->|Hmaster].
      * destruct (IH "master") as (I1 & I2 & I3).
        repeat split.
        -- intros [H|H]; [discriminate | now apply I1].
        -- intros Hn _.
           destruct (in_dec string_dec "master" rest) as [Hin|Hout].
           ++ apply I2; auto.
           ++ apply I3; auto.
        -- intros _ Hn. exfalso. auto.
      * destruct (IH targetBranch) as (I1 & I2 & I3).
        repeat split.
        -- intros [H|H]; [congruence | now apply I1].
        -- intros Hn [H|H]; [congruence | apply I2; auto].
        -- intros Hn Hm. apply I3; auto.
Qed.

(** C9: from the remote branches that [ls-remote] lists, [pullDefault] takes
    "main" when it is among them, wherever it stands, otherwise "master" when
    it is, and returns an error when neither is; the branch taken is the one
    it checks out and, when checkout and pull succeed, returns. *)
Theorem pullDefault_prefers_main (fmt_GoSyntax : list string -> string)
    (git_lsRemoteHeads : string -> result (list string))
    (git : list string -> option error) (remote : string)
    (branches : list string) :
  git_lsRemoteHeads remote = Ok branches ->
  let chosen := pickBranch branches "" in
  (In "main" branches -> chosen = "main") /\
  (~ In "main" branches -> In "master" branches -> chosen = "master") /\
  (~ In "main" branches -> ~ In "master" branches ->
   pullDefault fmt_GoSyntax git_lsRemoteHeads git remote =
   Err (errorString ("could not find 'main' or 'master' branch in "
                     ++ fmt_GoSyntax branches))) /\
  (In "main" branches \/ In "master" branches ->
   pullDefault fmt_GoSyntax git_lsRemoteHeads git remote =
   match git ["checkout"; chosen] with
   | Some err =>
       Err (wrapError ("checkout out " ++ chosen ++ ": " ++ Error err) err)
   | None =>
       match git ["pull"; remote] with
       | Some err =>
           Err (wrapError ("fast-forwarding " ++ chosen ++ ": " ++ Error err) err)
       | None => Ok chosen
       end
   end).
Proof.
  intros L chosen. destruct (pickBranch_spec branches "") as (P1 & P2 & P3).
  fold chosen in P1, P2, P3. unfold pullDefault. rewrite L. fold chosen.
  repeat split.
  - exact P1.
  - exact P2.
  - intros Hn Hm. now rewrite (P3 Hn Hm).
  - intros H.
    assert (E : chosen = "main" \/ chosen = "master").
    { destruct (in_dec string_dec "main" branches) as [Hin|Hout]; [auto|].
      destruct H as [H|H]; [contradiction|]. right. now apply P2. }
    destruct E as [-> | ->]; reflexivity.
Qed.

Lemma pullDefault_prefers_main_witness :
  pullDefault (fun _ => "") (fun _ => Ok ["develop"; "master"; "main"])
    (fun _ => None) "origin" = Ok "main".
Proof.
  refine (proj2 (proj2 (proj2
            (pullDefault_prefers_main (fun _ => "")
               (fun _ => Ok ["develop"; "master"; "main"]) (fun _ => None)
               "origin" ["develop"; "master"; "main"] eq_refl))) _).
  left. cbn. auto.
Defined.

(** ** The run and its ending *)

Lemma errors_Is_Handled_iff (e : error) :
  errors_Is_Handled e = true <-> IsHandled e.
Proof.
  induction e as [|msg|msg inner IH]; cbn.
  - split; [constructor | reflexivity].
  - split; [discriminate | inversion 1].
  - rewrite IH. split; [now constructor | now inversion 1].
Qed.

(** C7: when a job fails, [UpgradeProvider] starts no further job and returns
    [ErrHandled]; it returns no other error.  In the jobs it started, all but
    the last one succeeded; it returns [ErrHandled] if one of them failed,
    and an error it returns is [ErrHandled], after a failed last job. *)
Theorem UpgradeProvider_aborts (World : Type)
    (step_RunJob : string -> World -> bool * World)
    (goMod_Kind : World -> RepoKind)
    (forkedProviderUpstreamCommit : World -> string) (r0 : Progress World) :
  let res := UpgradeProvider World step_RunJob goMod_Kind
               forkedProviderUpstreamCommit r0 in
  exists new,
    jobs (snd res) = (jobs r0 ++ new)%list /\
    Forall succeeded (removelast new) /\
    ((exists name, In (name, false) new) ->
     fst res = Returned (Some ErrHandled)) /\
    (forall err, fst res = Returned (Some err) ->
       err = ErrHandled /\
       exists done name, new = (done ++ [(name, false)])%list).
Proof.
  intros res. subst res. unfold UpgradeProvider, RunJob.
  repeat
    (match goal with
     | |- context [step_RunJob ?n ?w] =>
         destruct (step_RunJob n w) as [[] ?]
     | |- context [IsForked ?k] => destruct (IsForked k)
     | |- context [String.eqb ?a ""] => destruct (String.eqb a "")
     end; cbn [negb andb fst snd world jobs]);
    eexists; (split; [rewrite <- ?app_assoc; reflexivity|]);
    cbn [app removelast]; unfold succeeded.
  all: split; [repeat constructor|].
  all: split.
  all: try (intros [name H]; cbn [In] in H;
            repeat (destruct H as [H|H]; [try discriminate; try reflexivity|]);
            try contradiction; try reflexivity).
  all: intros err H; try discriminate.
  all: injection H as <-; split; [reflexivity|].
  all: try (now exists (@nil (string * bool)), "Discovering Repository").
  all: try (now exists (("Discovering Repository", true) :: nil),
              "Upgrading Forked Provider").
  all: try (now exists (("Discovering Repository", true) :: nil),
              "Upgrading Provider").
  all: try (now exists (("Discovering Repository", true)
                        :: ("Upgrading Forked Provider", true) :: nil),
              "Upgrading Provider").
Qed.

(** C8: on the value that [UpgradeProvider] returns, the command exits with
    status 1 and prints nothing when the value is the already-reported error
    (in the sense of [errors.Is], as the code tests it), prints
    "error: <message>" and a newline and exits with status 1 on every other
    non-nil error, and returns without exiting on nil. *)
Theorem report_policy :
  report (Some ErrHandled) = silentFailure /\
  (forall e, IsHandled e -> report (Some e) = silentFailure) /\
  (forall e, ~ IsHandled e -> report (Some e) = printedFailure e) /\
  (forall msg, report (Some (errorString msg)) = printedFailure (errorString msg)) /\
  report None = normalExit /\
  (forall (World : Type) step_RunJob goMod_Kind commit (w : World) err,
      fst (UpgradeProvider World step_RunJob goMod_Kind commit
             {| world := w; jobs := [] |}) = Returned err ->
      cmd_Run step_RunJob goMod_Kind commit w = report err).
Proof.
  repeat split; try reflexivity.
  - intros e H. apply errors_Is_Handled_iff in H. unfold report. now rewrite H.
  - intros e H. unfold report.
    destruct (errors_Is_Handled e) eqn:E; [|reflexivity].
    now apply errors_Is_Handled_iff in E.
  - intros World step_RunJob goMod_Kind commit w err H. unfold cmd_Run.
    now rewrite H.
Qed.

(** A run on a forked provider whose fork job fails: two jobs are started,
    the upgrade job is not, and the process exits silently with status 1. *)
Example UpgradeProvider_fork_job_fails :
  let step_RunJob (name : string) (w : unit) :=
    (negb (String.eqb name "Upgrading Forked Provider"), w) in
  let res := UpgradeProvider unit step_RunJob (fun _ => Forked) (fun _ => "")
               {| world := tt; jobs := [] |} in
  fst res = Returned (Some ErrHandled) /\
  jobs (snd res) = [("Discovering Repository", true);
                    ("Upgrading Forked Provider", false)] /\
  cmd_Run step_RunJob (fun _ => Forked) (fun _ => "") tt = silentFailure.
Proof. repeat split; vm_compute; reflexivity. Qed.

(** * Further properties of the classifier *)

(** X1: on every [RepoKind] string, [withShim] keeps [IsForked]; [IsForked]
    holds of Forked and ForkedAndShimmed only, [IsShimmed] of Shimmed and
    ForkedAndShimmed only; [withShim] returns every string other than Plain
    and Forked as it is; and it yields a shimmed kind exactly on the four
    named kinds. *)
Theorem withShim_keeps_forked (k : RepoKind) :
  (k <> Plain -> k <> Forked -> withShim k = k) /\
  IsForked (withShim k) = IsForked k /\
  (IsForked k = true <-> k = Forked \/ k = ForkedAndShimmed) /\
  (IsShimmed k = true <-> k = Shimmed \/ k = ForkedAndShimmed) /\
  (IsShimmed (withShim k) = true <->
   k = Plain \/ k = Forked \/ k = Shimmed \/ k = ForkedAndShimmed).
Proof.
  destruct (String.eqb k Plain) eqn:E1;
    [apply String.eqb_eq in E1; subst; vm_compute;
     intuition (discriminate || auto)|].
  destruct (String.eqb k Forked) eqn:E2;
    [apply String.eqb_eq in E2; subst; vm_compute;
     intuition (discriminate || auto)|].
  destruct (String.eqb k Shimmed) eqn:E3;
    [apply String.eqb_eq in E3; subst; vm_compute;
     intuition (discriminate || auto)|].
  destruct (String.eqb k ForkedAndShimmed) eqn:E4;
    [apply String.eqb_eq in E4; subst; vm_compute;
     intuition (discriminate || auto)|].
  assert (W : withShim k = k) by (unfold withShim; now rewrite E1, E2).
  rewrite W. unfold IsForked, IsShimmed. rewrite E2, E3, E4.
  apply String.eqb_neq in E1, E2, E3, E4.
  intuition (discriminate || auto).
Qed.

Lemma findFork_some (tf : string) (upstream : modfile_Require)
    (replaces : list modfile_Replace) (replace : modfile_Replace) :
  findFork tf upstream replaces = Ok (Some replace) ->
  exists skipped rest before after,
    replaces = (skipped ++ replace :: rest)%list /\
    (forall r, In r skipped -> Path (Old r) <> Path (Mod upstream)) /\
    Path (Old replace) = Path (Mod upstream) /\
    strings.Cut (Path (New replace)) ("/" ++ tf) = (before, after, true) /\
    (after = "" \/ regexp.MatchString versionSuffix after = true) /\
    orgOf before = "pulumi".
Proof.
  induction replaces as [|r replaces IH]; cbn [findFork]; [discriminate|].
  destruct (String.eqb_spec (Path (Old r)) (Path (Mod upstream))) as [E|N];
    cbn [negb].
  - destruct (strings.Cut (Path (New r)) ("/" ++ tf))
      as [[before after] found] eqn:C.
    destruct found; cbn [negb orb]; [|discriminate].
    destruct (String.eqb_spec after "") as [A|A]; cbn [negb andb].
    + fold (orgOf before).
      destruct (String.eqb_spec (orgOf before) "pulumi") as [O|O];
        cbn [negb]; [|discriminate].
      intros [= <-]. exists [], replaces, before, after.
      repeat split; auto; try (intros ? []).
    + destruct (regexp.MatchString versionSuffix after) eqn:M;
        cbn [negb]; [|discriminate].
      fold (orgOf before).
      destruct (String.eqb_spec (orgOf before) "pulumi") as [O|O];
        cbn [negb]; [|discriminate].
      intros [= <-]. exists [], replaces, before, after.
      repeat split; auto; try (intros ? []).
  - intros H. destruct (IH H) as (skipped & rest & before & after & -> & S & R).
    exists (r :: skipped), rest, before, after. split; [reflexivity|].
    split; [|exact R]. intros r' [<-|Hr']; [exact N | now apply S].
Qed.

Lemma findFork_none (tf : string) (upstream : modfile_Require)
    (replaces : list modfile_Replace) :
  findFork tf upstream replaces = Ok None <->
  forall r, In r replaces -> Path (Old r) <> Path (Mod upstream).
Proof.
  split.
  - induction replaces as [|r replaces IH]; cbn [findFork]; [intros _ ? []|].
    destruct (String.eqb_spec (Path (Old r)) (Path (Mod upstream))) as [E|N];
      cbn [negb].
    + destruct (strings.Cut (Path (New r)) ("/" ++ tf))
        as [[before after] found].
      destruct found, (String.eqb after ""),
        (regexp.MatchString versionSuffix after); cbn [negb orb andb];
        try discriminate;
        destruct (String.eqb _ "pulumi"); discriminate.
    + intros H r' [<-|Hr']; [exact N | now apply IH].
  - intros H. rewrite <- (app_nil_r replaces).
    now rewrite (findFork_skip tf upstream replaces [] H).
Qed.

(** X3: once the upstream is found, a manifest without replace directive
    for the upstream path is classified, as Plain or Shimmed and without
    Fork, whatever other directives it has; and a result without Fork is
    returned only for such a manifest. *)
Theorem repoKind_without_fork (join : list string -> string)
    (goMod : modfile_File) (shimStat : statResult) (shim : manifest)
    (path name : string) (upstream : modfile_Require) (shimmed : bool) :
  findUpstream join goMod shimStat shim path ("terraform-provider-" ++ name)
    = Ok (upstream, shimmed) ->
  ((forall r, In r (Replace goMod) -> Path (Old r) <> Path (Mod upstream)) ->
   repoKind join (Parsed goMod) shimStat shim path name =
   Ok {| Kind := if shimmed then Shimmed else Plain;
         Upstream := Mod upstream; Fork := None |}) /\
  (forall out,
     repoKind join (Parsed goMod) shimStat shim path name = Ok out ->
     Fork out = None ->
     forall r, In r (Replace goMod) -> Path (Old r) <> Path (Mod upstream)).
Proof.
  intros U. split.
  - intros H. apply findFork_none with (tf := "terraform-provider-" ++ name) in H.
    unfold repoKind. rewrite U, H. now destruct shimmed.
  - intros out H F.
    destruct (repoKind_ok_inv _ _ _ _ _ _ _ H)
      as (goMod' & upstream' & shimmed' & fork & [= <-] & U' & FF & ->).
    rewrite U in U'. injection U' as <- <-. cbn [Fork] in F. subst fork.
    exact (proj1 (findFork_none _ _ _) FF).
Qed.

Lemma repoKind_without_fork_witness :
  repoKind Triple.slash_Join (Parsed Fixture.plain) Fixture.notExist
    Fixture.noManifest "repo" "foo" =
  Ok {| Kind := Plain; Upstream := Mod Fixture.upstream_foo; Fork := None |}.
Proof.
  apply (proj1 (repoKind_without_fork Triple.slash_Join Fixture.plain
                  Fixture.notExist Fixture.noManifest "repo" "foo"
                  Fixture.upstream_foo false eq_refl)).
  intros r [].
Defined.

(** X4: the kind of a result is one of the four named kinds; it is shimmed
    exactly when [os.Stat] found the shim directory; and when [os.Stat]
    reported that the directory does not exist, Upstream is the coordinates
    of the first require entry of the outer manifest that the lookup
    accepts. *)
Theorem repoKind_shimmed_iff_stat (join : list string -> string)
    (goMod : modfile_File) (shimStat : statResult) (shim : manifest)
    (path name : string) (out : GoMod) :
  repoKind join (Parsed goMod) shimStat shim path name = Ok out ->
  (Kind out = Plain \/ Kind out = Forked \/ Kind out = Shimmed \/
   Kind out = ForkedAndShimmed) /\
  (IsShimmed (Kind out) = true <-> shimStat = StatOk) /\
  (shimStat <> StatOk ->
   exists err skipped entry rest,
     shimStat = StatErr err true /\
     Require goMod = (skipped ++ entry :: rest)%list /\
     (forall e, In e skipped ->
        isUpstream ("terraform-provider-" ++ name) e = false) /\
     isUpstream ("terraform-provider-" ++ name) entry = true /\
     Upstream out = Mod entry).
Proof.
  intros H.
  destruct (repoKind_ok_inv _ _ _ _ _ _ _ H)
    as (goMod' & upstream & shimmed & fork & [= <-] & U & _ & ->).
  cbn [Kind Upstream]. unfold findUpstream in U.
  destruct shimStat as [|err [|]].
  - destruct shim as [e|e|shimMod]; try discriminate.
    destruct (getUpstream _ shimMod); [|discriminate].
    injection U as _ <-.
    destruct fork; vm_compute; intuition (discriminate || congruence).
  - destruct (getUpstream _ goMod) as [u|] eqn:G; [|discriminate].
    injection U as <- <-.
    apply getUpstream_loop_ok in G.
    destruct G as (skipped & rest & R & S & E).
    split; [destruct fork; auto|].
    split; [destruct fork; vm_compute; intuition discriminate|].
    intros _. now exists err, skipped, u, rest.
  - discriminate.
Qed.

Lemma repoKind_shimmed_iff_stat_witness :
  exists out,
    repoKind Triple.slash_Join (Parsed Fixture.forked) StatOk
      (Parsed Fixture.shim_manifest) "repo" "foo" = Ok out /\
    IsShimmed (Kind out) = true.
Proof.
  eexists. split; [vm_compute; reflexivity|].
  apply (proj1 (proj2 (repoKind_shimmed_iff_stat Triple.slash_Join
           Fixture.forked StatOk (Parsed Fixture.shim_manifest) "repo" "foo"
           _ eq_refl))).
  reflexivity.
Defined.



(** * Further properties of the run *)

(** X6: [UpgradeProvider] always starts with the job "Discovering
    Repository"; it runs "Upgrading Forked Provider" exactly when discovery
    succeeded and left a forked kind; and it returns nil exactly when the
    job "Upgrading Provider" ran and succeeded. *)
Theorem UpgradeProvider_job_order (World : Type)
    (step_RunJob : string -> World -> bool * World)
    (goMod_Kind : World -> RepoKind)
    (forkedProviderUpstreamCommit : World -> string) (r0 : Progress World) :
  let res := UpgradeProvider World step_RunJob goMod_Kind
               forkedProviderUpstreamCommit r0 in
  let discovery := step_RunJob "Discovering Repository" (world r0) in
  exists new,
    jobs (snd res) = (jobs r0 ++ new)%list /\
    hd_error new = Some ("Discovering Repository", fst discovery) /\
    (In "Upgrading Forked Provider" (map fst new) <->
     fst discovery = true /\
     IsForked (goMod_Kind (snd discovery)) = true) /\
    (fst res = Returned None <-> In ("Upgrading Provider", true) new).
Proof.
  intros res discovery. subst res discovery. unfold UpgradeProvider, RunJob.
  repeat
    (match goal with
     | |- context [step_RunJob ?n ?w] =>
         destruct (step_RunJob n w) as [[] ?]
     | H : IsForked ?k = _ |- context [IsForked ?k] => rewrite H
     | |- context [IsForked ?k] => destruct (IsForked k) eqn:?
     | |- context [String.eqb ?a ""] => destruct (String.eqb a "")
     end; cbn [negb andb fst snd world jobs]);
    eexists; (split; [rewrite <- ?app_assoc; reflexivity|]);
    cbn [app hd_error map fst In].
  all: split; [reflexivity|].
  all: split; split; intros H.
  all: repeat match goal with
         | H : _ \/ _ |- _ => destruct H
         | H : _ /\ _ |- _ => destruct H
         end; try discriminate; try contradiction; try congruence; auto.
  all: repeat (try (left; reflexivity); right).
Qed.

(** * Properties of the git filters *)

(** ** [strings.Split] *)

Lemma Split_not_nil (s : string) (c : ascii) : strings.Split s c <> [].
Proof.
  destruct s as [|b s]; cbn [strings.Split]; [discriminate|].
  destruct (Ascii.eqb b c); [discriminate|].
  destruct (strings.Split s c); discriminate.
Qed.

Lemma Split_no_sep (s : string) (c : ascii) :
  has_byte c s = false -> strings.Split s c = [s].
Proof.
  induction s as [|b s IH]; cbn [strings.Split has_byte]; [reflexivity|].
  intros H. apply orb_false_elim in H. destruct H as [Hb Hs].
  rewrite Hb, (IH Hs). reflexivity.
Qed.

Lemma Split_cons (x y : string) (c : ascii) :
  has_byte c x = false ->
  strings.Split (x ++ String c y) c = x :: strings.Split y c.
Proof.
  induction x as [|b x IH]; cbn [strings.Split has_byte append].
  - intros _. now rewrite Ascii.eqb_refl.
  - intros H. apply orb_false_elim in H. destruct H as [Hb Hx].
    rewrite Hb, (IH Hx). reflexivity.
Qed.

Lemma Split_last_sep (s : string) (c : ascii) :
  strings.Split (s ++ String c "") c = (strings.Split s c ++ [""])%list.
Proof.
  induction s as [|b s IH]; cbn [strings.Split append].
  - now rewrite Ascii.eqb_refl.
  - destruct (Ascii.eqb b c).
    + now rewrite IH.
    + rewrite IH. destruct (strings.Split s c) eqn:E; [|reflexivity].
      now elim (Split_not_nil s c).
Qed.

Lemma Split_unlines (lines : list string) :
  (forall line, In line lines -> has_byte LF line = false) ->
  strings.Split (unlines lines) LF = (lines ++ [""])%list.
Proof.
  induction lines as [|line rest IH]; intros H; cbn [unlines app].
  - reflexivity.
  - rewrite Split_cons by (apply H; now left).
    rewrite IH; [reflexivity|]. intros l Hl. apply H. now right.
Qed.

(** ** ensurePulumiRemote *)

Lemma hasPulumi_In (remotes : list string) :
  hasPulumi remotes = true <-> In "pulumi" remotes.
Proof.
  induction remotes as [|remote rest IH]; cbn [hasPulumi In].
  - split; [discriminate | intros []].
  - destruct (String.eqb_spec remote "pulumi") as [->|N].
    + split; auto.
    + rewrite IH. split; [auto | intros [E|E]; [congruence | exact E]].
Qed.

(** X7: when [git remote] lists the remotes one per line,
    [ensurePulumiRemote] adds nothing if "pulumi" is among them, and answers
    "'pulumi' already exists" whatever [git remote add] would do; otherwise
    it runs [git remote add pulumi] with the URL
    "https://github.com/pulumi/terraform-provider-<name>.git", whose failure
    is its error and whose success gives "set to 'pulumi'". *)
Theorem ensurePulumiRemote_adds_once (git : list string -> result string)
    (name : string) (remotes : list string) :
  git ["remote"] = Ok (unlines remotes) ->
  (forall remote, In remote remotes -> has_byte LF remote = false) ->
  (In "pulumi" remotes ->
   ensurePulumiRemote git name = Ok "'pulumi' already exists") /\
  (~ In "pulumi" remotes ->
   ensurePulumiRemote git name =
   match git ["remote"; "add"; "pulumi";
              "https://github.com/pulumi/terraform-provider-" ++ name ++ ".git"]
   with
   | Ok _ => Ok "set to 'pulumi'"
   | Err err => Err err
   end).
Proof.
  intros G H.
  assert (E : ensurePulumiRemote git name =
              if hasPulumi (remotes ++ [""])
              then Ok "'pulumi' already exists"
              else match git ["remote"; "add"; "pulumi";
                              "https://github.com/pulumi/terraform-provider-"
                              ++ name ++ ".git"]
                   with
                   | Ok _ => Ok "set to 'pulumi'"
                   | Err err => Err err
                   end).
  { unfold ensurePulumiRemote, runGitCommand.
    now rewrite G, (Split_unlines remotes H). }
  rewrite E. destruct (hasPulumi (remotes ++ [""])) eqn:P.
  - split; [reflexivity|]. intros N. apply hasPulumi_In in P.
    apply in_app_or in P. destruct P as [P|[P|[]]];
      [contradiction | discriminate].
  - split; [|reflexivity]. intros I.
    assert (hasPulumi (remotes ++ [""]) = true)
      by (apply hasPulumi_In, in_or_app; now left).
    congruence.
Qed.

Lemma ensurePulumiRemote_adds_once_witness :
  ensurePulumiRemote
    (fun args => match args with
                 | ["remote"] => Ok (unlines ["origin"; "pulumi"])
                 | _ => Err (errorString "exit status 128")
                 end) "foo"
  = Ok "'pulumi' already exists".
Proof.
  refine (proj1 (ensurePulumiRemote_adds_once _ "foo" ["origin"; "pulumi"]
                   eq_refl _) _).
  - intros remote [<-|[<-|[]]]; reflexivity.
  - right. now left.
Defined.

(** ** The filter of "Lookup Tag SHA" *)

Lemma Split_unlines_app (lines : list string) (tail : string) :
  (forall line, In line lines -> has_byte LF line = false) ->
  strings.Split (unlines lines ++ tail) LF
  = (lines ++ strings.Split tail LF)%list.
Proof.
  induction lines as [|line rest IH]; intros H; cbn [unlines app append].
  - reflexivity.
  - rewrite append_assoc. cbn [append].
    rewrite Split_cons by (apply H; now left).
    rewrite IH; [reflexivity|]. intros l Hl. apply H. now right.
Qed.

Lemma Split_refLine (entry : string * string) :
  has_byte TAB (fst entry) = false -> has_byte TAB (snd entry) = false ->
  strings.Split (refLine entry) TAB = [fst entry; snd entry].
Proof.
  intros H1 H2. unfold refLine. rewrite Split_cons by exact H1.
  now rewrite Split_no_sep by exact H2.
Qed.

Lemma lookupTagSHA_lines_skip (entries : list (string * string))
    (rest : list string) (targetString targetOriginal : string) :
  (forall entry, In entry entries ->
     has_byte TAB (fst entry) = false /\ has_byte TAB (snd entry) = false /\
     snd entry <> "refs/tags/v" ++ targetString) ->
  lookupTagSHA_lines (map refLine entries ++ rest) targetString targetOriginal
  = lookupTagSHA_lines rest targetString targetOriginal.
Proof.
  induction entries as [|entry entries IH]; intros H;
    cbn [map app lookupTagSHA_lines]; [reflexivity|].
  destruct (H entry (or_introl eq_refl)) as (H1 & H2 & H3).
  rewrite (Split_refLine entry H1 H2).
  apply String.eqb_neq in H3. rewrite H3.
  apply IH. intros e He. apply H. now right.
Qed.

Lemma lookupTagSHA_lines_last_empty (lines : list string)
    (targetString targetOriginal : string) :
  lookupTagSHA_lines (lines ++ [""]) targetString targetOriginal = None \/
  exists sha,
    lookupTagSHA_lines (lines ++ [""]) targetString targetOriginal
    = Some (Ok sha).
Proof.
  induction lines as [|line lines IH]; cbn [app lookupTagSHA_lines].
  - left. reflexivity.
  - destruct (strings.Split line TAB) as [|p0 [|p1 [|p2 ps]]]; auto.
    destruct (String.eqb p1 _); [right; now exists p0 | exact IH].
Qed.

(** X8: on output that is empty or ends with a newline, as [git] prints it,
    the filter of "Lookup Tag SHA" never returns its error "could not find
    SHA for tag": it returns an object name, or the assertion on the number
    of tab-separated parts fails on the empty last line. *)
Theorem lookupTagSHA_never_reports_missing
    (out targetString targetOriginal : string) :
  out = "" \/ (exists body, out = body ++ String LF "") ->
  lookupTagSHA out targetString targetOriginal = None \/
  exists sha, lookupTagSHA out targetString targetOriginal = Some (Ok sha).
Proof.
  unfold lookupTagSHA. intros [->|[body ->]].
  - left. reflexivity.
  - rewrite Split_last_sep. apply lookupTagSHA_lines_last_empty.
Qed.

Lemma lookupTagSHA_never_reports_missing_witness :
  lookupTagSHA (unlines [refLine ("5f3c", "refs/tags/v1.2.0")]) "1.3.0" "1.3.0"
  = None.
Proof.
  destruct (lookupTagSHA_never_reports_missing
              (unlines [refLine ("5f3c", "refs/tags/v1.2.0")]) "1.3.0" "1.3.0")
    as [N|[sha S]].
  - right. exists (refLine ("5f3c", "refs/tags/v1.2.0")). reflexivity.
  - exact N.
  - vm_compute in S. discriminate.
Defined.

(** X9: the filter returns the object name of the first line whose
    reference is "refs/tags/v<target>", provided the lines before it have
    exactly two tab-separated parts; what follows that line is not read. *)
Theorem lookupTagSHA_first_match (before : list (string * string))
    (sha tail targetString targetOriginal : string) :
  (forall entry, In entry before ->
     has_byte TAB (fst entry) = false /\ has_byte TAB (snd entry) = false /\
     has_byte LF (refLine entry) = false /\
     snd entry <> "refs/tags/v" ++ targetString) ->
  has_byte TAB sha = false -> has_byte LF sha = false ->
  has_byte TAB targetString = false -> has_byte LF targetString = false ->
  lookupTagSHA
    (unlines (map refLine (before ++ [(sha, "refs/tags/v" ++ targetString)]))
     ++ tail) targetString targetOriginal
  = Some (Ok sha).
Proof.
  intros Hb Ht Hl Tt Tl. unfold lookupTagSHA.
  assert (LFfree : forall x y, has_byte LF x = false -> has_byte LF y = false ->
                               has_byte LF (x ++ y) = false).
  { intros x y Hx Hy. induction x as [|c x IH]; cbn [append has_byte];
      [exact Hy|]. cbn [has_byte] in Hx. apply orb_false_elim in Hx.
    destruct Hx as [Hc Hx]. now rewrite Hc, IH. }
  rewrite Split_unlines_app.
  - rewrite map_app, <- app_assoc, lookupTagSHA_lines_skip.
    + cbn [map app lookupTagSHA_lines].
      rewrite Split_refLine by (cbn [fst snd]; auto).
      cbn [snd fst]. now rewrite String.eqb_refl.
    + intros e He. destruct (Hb e He) as (H1 & H2 & _ & H4). auto.
  - intros line Hline. rewrite map_app in Hline.
    apply in_app_or in Hline. destruct Hline as [Hline|[<-|[]]].
    + apply in_map_iff in Hline. destruct Hline as (e & <- & He).
      now destruct (Hb e He) as (_ & _ & H3 & _).
    + unfold refLine. cbn [fst snd]. apply LFfree; [exact Hl|].
      cbn [has_byte]. replace (Ascii.eqb TAB LF) with false by reflexivity.
      cbn [orb]. apply (LFfree "refs/tags/v" targetString eq_refl Tl).
Qed.

Lemma lookupTagSHA_first_match_witness :
  lookupTagSHA
    (unlines [refLine ("5f3c", "refs/tags/v1.2.0");
              refLine ("a91e", "refs/tags/v1.3.0")] ++ "not a reference line")
    "1.3.0" "1.3.0"
  = Some (Ok "a91e").
Proof.
  refine (lookupTagSHA_first_match [("5f3c", "refs/tags/v1.2.0")] "a91e"
            "not a reference line" "1.3.0" "1.3.0" _ eq_refl eq_refl eq_refl
            eq_refl).
  intros entry [<-|[]]. repeat split; try reflexivity. discriminate.
Defined.

(** ** The filters that trim their lines *)

Lemma Index_byte_first (x y : string) (c : ascii) :
  has_byte c x = false ->
  strings.Index (x ++ String c y) (String c "") = Some (String.length x).
Proof.
  induction x as [|b x IH]; intros H; rewrite Index_unfold; cbn [append].
  - pose proof (prefix_append (String c "") y) as P. cbn [append] in P.
    now rewrite P.
  - cbn [has_byte] in H. apply orb_false_elim in H. destruct H as [Hb Hx].
    cbn [String.prefix]. destruct (ascii_dec c b) as [->|_].
    + now rewrite Ascii.eqb_refl in Hb.
    + rewrite (IH Hx). reflexivity.
Qed.

Lemma Index_byte_none (s : string) (c : ascii) :
  has_byte c s = false -> strings.Index s (String c "") = None.
Proof.
  induction s as [|b s IH]; intros H; rewrite Index_unfold.
  - reflexivity.
  - cbn [has_byte] in H. apply orb_false_elim in H. destruct H as [Hb Hs].
    cbn [String.prefix]. destruct (ascii_dec c b) as [->|_].
    + now rewrite Ascii.eqb_refl in Hb.
    + now rewrite (IH Hs).
Qed.

Lemma upto_length_append (x y : string) :
  strings.upto (String.length x) (x ++ y) = x.
Proof.
  induction x as [|b x IH]; cbn [String.length append strings.upto].
  - now destruct y.
  - now rewrite IH.
Qed.

Lemma from_length_append (x y : string) :
  strings.from (String.length x) (x ++ y) = y.
Proof.
  induction x as [|b x IH]; cbn [String.length append strings.from];
    [reflexivity | exact IH].
Qed.

Lemma Cut_byte (x y : string) (c : ascii) :
  has_byte c x = false ->
  strings.Cut (x ++ String c y) (String c "") = (x, y, true).
Proof.
  intros H. unfold strings.Cut. rewrite (Index_byte_first x y c H).
  rewrite upto_length_append.
  change (String.length (String c "")) with 1.
  replace (String.length x + 1) with (String.length (x ++ String c ""))
    by (rewrite length_append; reflexivity).
  replace (x ++ String c y) with ((x ++ String c "") ++ y)
    by (now rewrite append_assoc).
  now rewrite from_length_append.
Qed.

Lemma TrimPrefix_append (pre s : string) :
  strings.TrimPrefix (pre ++ s) pre = s.
Proof.
  unfold strings.TrimPrefix, strings.HasPrefix.
  now rewrite prefix_append, from_length_append.
Qed.

Lemma Triple_LessThan_trans (a b c : Triple.t) :
  Triple.LessThan a b = true -> Triple.LessThan b c = true ->
  Triple.LessThan a c = true.
Proof. rewrite !TripleFacts.LessThan_spec. lia. Qed.

Section GitFilterFacts.

Variable strings_TrimSpace : string -> string.
Variable V : Type.
Variable NewVersion : string -> option V.
Variable LessThan : V -> V -> bool.
Variable Version_String : V -> string.

(** [LessThan] is a strict order. *)
Hypothesis LessThan_irrefl : forall a, LessThan a a = false.
Hypothesis LessThan_trans :
  forall a b c,
    LessThan a b = true -> LessThan b c = true -> LessThan a c = true.

Lemma scanUpstreamVersions_none (lines : list string) :
  scanUpstreamVersions strings_TrimSpace V NewVersion LessThan lines None
  = None ->
  forall line, In line lines ->
    NewVersion (strings.TrimPrefix (strings_TrimSpace line) "pulumi/upstream-v")
    = None.
Proof.
  induction lines as [|l lines IH]; cbn [scanUpstreamVersions];
    [intros _ ? []|].
  destruct (NewVersion _) as [v|] eqn:N.
  - intros H. exfalso. clear IH N. revert v H.
    induction lines as [|l' lines IH]; intros v; cbn [scanUpstreamVersions];
      [discriminate|].
    destruct (NewVersion _) as [v'|]; [|apply IH].
    destruct (LessThan v v'); apply IH.
  - intros H line [<-|Hl]; [exact N | now apply IH].
Qed.

Lemma scanUpstreamVersions_some (lines : list string) (previous : V) :
  exists m,
    scanUpstreamVersions strings_TrimSpace V NewVersion LessThan lines
      (Some previous) = Some m /\
    (m = previous \/
     exists line, In line lines /\
       NewVersion (strings.TrimPrefix (strings_TrimSpace line)
                     "pulumi/upstream-v") = Some m) /\
    (forall w, LessThan previous w = false -> LessThan m w = false) /\
    (forall line w, In line lines ->
       NewVersion (strings.TrimPrefix (strings_TrimSpace line)
                     "pulumi/upstream-v") = Some w ->
       LessThan m w = false).
Proof.
  revert previous; induction lines as [|l lines IH]; intros previous;
    cbn [scanUpstreamVersions].
  - exists previous. repeat split; auto. intros ? ? [].
  - destruct (NewVersion _) as [v|] eqn:N.
    + destruct (LessThan previous v) eqn:L.
      * destruct (IH v) as (m & E & O & P & Q). exists m.
        assert (P' : forall w, LessThan previous w = false ->
                               LessThan m w = false).
        { intros w Hw. apply P. destruct (LessThan v w) eqn:Lw; [|reflexivity].
          rewrite (LessThan_trans _ _ _ L Lw) in Hw. discriminate. }
        split; [exact E|]. split; [|split; [exact P'|]].
        -- right. destruct O as [->|(line & Hl & Hv)].
           ++ exists l. split; [now left | exact N].
           ++ exists line. split; [now right | exact Hv].
        -- intros line w [<-|Hl] Hw.
           ++ rewrite N in Hw. injection Hw as <-.
              apply P, LessThan_irrefl.
           ++ now apply (Q line).
      * destruct (IH previous) as (m & E & O & P & Q). exists m.
        split; [exact E|]. split; [|split; [exact P|]].
        -- destruct O as [->|(line & Hl & Hv)]; [now left|].
           right. exists line. split; [now right | exact Hv].
        -- intros line w [<-|Hl] Hw.
           ++ rewrite N in Hw. injection Hw as <-. now apply P.
           ++ now apply (Q line).
    + destruct (IH previous) as (m & E & O & P & Q). exists m.
      split; [exact E|]. split; [|split; [exact P|]].
      * destruct O as [->|(line & Hl & Hv)]; [now left|].
        right. exists line. split; [now right | exact Hv].
      * intros line w [<-|Hl] Hw; [congruence | now apply (Q line)].
Qed.

(** X10: starting from no previous version, the filter of "discover
    previous upstream version" fails with "no version found" exactly when no
    line, trimmed and without a leading "pulumi/upstream-v", parses as a
    version; otherwise it returns, and leaves in [previousUpstreamVersion],
    a version parsed from some line than which no parsed version is
    greater. *)
Theorem discoverPreviousUpstreamVersion_maximum (b : string) :
  let parsed v :=
    exists line,
      In line (strings.Split b LF) /\
      NewVersion (strings.TrimPrefix (strings_TrimSpace line)
                    "pulumi/upstream-v") = Some v in
  let run :=
    discoverPreviousUpstreamVersion strings_TrimSpace V NewVersion LessThan
      Version_String b None in
  (run = (Err (errorString "no version found"), None) <->
   forall v, ~ parsed v) /\
  (forall w, parsed w ->
     exists m,
       run = (Ok (Version_String m), Some m) /\ parsed m /\
       forall w', parsed w' -> LessThan m w' = false).
Proof.
  intros parsed run. subst parsed run. unfold discoverPreviousUpstreamVersion.
  generalize (strings.Split b LF). intros lines.
  destruct (scanUpstreamVersions strings_TrimSpace V NewVersion LessThan
              lines None) as [m|] eqn:E.
  - assert (M : (exists line, In line lines /\
                   NewVersion (strings.TrimPrefix (strings_TrimSpace line)
                                 "pulumi/upstream-v") = Some m) /\
                forall line w, In line lines ->
                  NewVersion (strings.TrimPrefix (strings_TrimSpace line)
                                "pulumi/upstream-v") = Some w ->
                  LessThan m w = false).
    { clear - E LessThan_irrefl LessThan_trans.
      induction lines as [|l lines IH]; cbn [scanUpstreamVersions] in E;
        [discriminate|].
      destruct (NewVersion (strings.TrimPrefix (strings_TrimSpace l)
                              "pulumi/upstream-v")) as [v|] eqn:N.
      - destruct (scanUpstreamVersions_some lines v) as (m' & E' & O & P & Q).
        rewrite E in E'. injection E' as <-. split.
        + destruct O as [->|(line & Hl & Hv)].
          * exists l. split; [now left | exact N].
          * exists line. split; [now right | exact Hv].
        + intros line w [<-|Hl] Hw.
          * rewrite N in Hw. injection Hw as <-. apply P, LessThan_irrefl.
          * now apply (Q line).
      - destruct (IH E) as [(line & Hl & Hv) Q]. split.
        + exists line. split; [now right | exact Hv].
        + intros line' w [<-|Hl'] Hw; [congruence | now apply (Q line')]. }
    destruct M as [Hm Q]. split.
    + split; [discriminate|]. intros H. now elim (H m).
    + intros w _. exists m. repeat split; [exact Hm|].
      intros w' (line & Hl & Hw). now apply (Q line).
  - split.
    + split; [|reflexivity]. intros _ v (line & Hl & Hv).
      rewrite (scanUpstreamVersions_none lines E line Hl) in Hv. discriminate.
    + intros w (line & Hl & Hw).
      rewrite (scanUpstreamVersions_none lines E line Hl) in Hw. discriminate.
Qed.

(** X11: the filter of [pullDefault] gives back the branch names of
    [git ls-remote --heads] output: for lines
    "<object>TAB refs/heads/<branch>" that [strings.TrimSpace] leaves as they
    are, each followed by a newline, it returns the branches in order; and a
    line that is not blank after trimming and has no tab makes its assertion
    fail. *)
Theorem remoteHeads_branches (entries : list (string * string)) :
  strings_TrimSpace "" = "" ->
  (forall entry, In entry entries ->
     let line := refLine (fst entry, "refs/heads/" ++ snd entry) in
     strings_TrimSpace line = line /\
     has_byte TAB (fst entry) = false /\
     has_byte LF line = false) ->
  remoteHeads strings_TrimSpace
    (unlines (map (fun entry => refLine (fst entry, "refs/heads/" ++ snd entry))
                entries))
  = Some (map snd entries) /\
  (forall line rest,
     strings_TrimSpace line <> "" ->
     has_byte TAB (strings_TrimSpace line) = false ->
     remoteHeads_lines strings_TrimSpace (line :: rest) = None).
Proof.
  intros T0 H. split.
  - unfold remoteHeads. rewrite Split_unlines.
    + induction entries as [|entry entries IH];
        cbn [map app remoteHeads_lines].
      * now rewrite T0.
      * destruct (H entry (or_introl eq_refl)) as (T & Ht & _).
        cbn zeta in T. rewrite !T.
        pose proof (Cut_byte (fst entry) ("refs/heads/" ++ snd entry) TAB Ht)
          as C.
        change (fst entry ++ String TAB ("refs/heads/" ++ snd entry))
          with (refLine (fst entry, "refs/heads/" ++ snd entry)) in C.
        assert (N : String.eqb (refLine (fst entry, "refs/heads/" ++ snd entry))
                      "" = false)
          by (unfold refLine; cbn [fst snd]; now destruct (fst entry)).
        rewrite N, C. cbn [negb].
        rewrite TrimPrefix_append, IH; [reflexivity|].
        intros e He. apply H. now right.
    + intros line Hl. apply in_map_iff in Hl. destruct Hl as (e & <- & He).
      now destruct (H e He) as (_ & _ & L).
  - intros line rest Hne Hnt. cbn [remoteHeads_lines].
    apply String.eqb_neq in Hne. rewrite Hne.
    unfold strings.Cut. now rewrite (Index_byte_none _ TAB Hnt).
Qed.

End GitFilterFacts.

Lemma discoverPreviousUpstreamVersion_maximum_witness :
  exists m,
    discoverPreviousUpstreamVersion AsciiSpace.TrimSpace Triple.t
      Triple.NewVersion Triple.LessThan Triple.toString
      (unlines ["  pulumi/upstream-v1.2.0"; "  pulumi/upstream-v1.10.0";
                "  pulumi/upstream-v1.9.3"]) None
    = (Ok (Triple.toString m), Some m) /\
    m = (1, 10, 0).
Proof.
  destruct (proj2 (discoverPreviousUpstreamVersion_maximum
                     AsciiSpace.TrimSpace Triple.t Triple.NewVersion
                     Triple.LessThan Triple.toString
                     TripleFacts.LessThan_irrefl Triple_LessThan_trans
                     (unlines ["  pulumi/upstream-v1.2.0";
                               "  pulumi/upstream-v1.10.0";
                               "  pulumi/upstream-v1.9.3"])) (1, 2, 0))
    as (m & E & _).
  - exists "  pulumi/upstream-v1.2.0". split; [now left|].
    vm_compute. reflexivity.
  - exists m. split; [exact E|].
    vm_compute in E. now injection E as _ <-.
Defined.

Lemma remoteHeads_branches_witness :
  remoteHeads AsciiSpace.TrimSpace
    (unlines [refLine ("5f3c", "refs/heads/master");
              refLine ("a91e", "refs/heads/main")])
  = Some ["master"; "main"].
Proof.
  refine (proj1 (remoteHeads_branches AsciiSpace.TrimSpace
                   [("5f3c", "master"); ("a91e", "main")] eq_refl _)).
  intros entry [<-|[<-|[]]]; vm_compute; repeat split; reflexivity.
Defined.

(** * The version-suffix pattern *)

(** ** The matcher against what a pattern matches *)

Lemma append_nil_r (s : string) : s ++ "" = s.
Proof. induction s as [|c s IH]; cbn [append]; [reflexivity | now rewrite IH]. Qed.

Lemma append_eq_nil (x y : string) : x ++ y = "" -> x = "" /\ y = "".
Proof. destruct x; cbn [append]; [auto | discriminate]. Qed.

Lemma nullable_false_true (r : regexp.regex) :
  regexp.nullable false r = true -> regexp.nullable true r = true.
Proof.
  induction r; cbn [regexp.nullable]; try reflexivity; try discriminate.
  - rewrite !andb_true_iff. intuition.
  - rewrite !orb_true_iff. intuition.
Qed.

Lemma nullable_Matches (r : regexp.regex) (rest : string) :
  regexp.nullable (atEnd rest) r = true -> Matches r "" rest.
Proof.
  induction r; cbn [regexp.nullable]; try discriminate; intros H.
  - constructor.
  - apply andb_true_iff in H. destruct H as [H1 H2].
    apply (Matches_Cat r1 r2 "" "" rest); auto.
  - apply orb_true_iff in H. destruct H as [H|H];
      [apply Matches_AltL | apply Matches_AltR]; auto.
  - constructor.
  - destruct rest; [constructor | discriminate].
Qed.

Lemma Matches_nullable (r : regexp.regex) (w rest : string) :
  Matches r w rest -> w = "" -> regexp.nullable (atEnd rest) r = true.
Proof.
  induction 1; intros E; cbn [regexp.nullable]; try reflexivity;
    try discriminate.
  - apply append_eq_nil in E. destruct E as [-> ->].
    pose proof (IHMatches1 eq_refl) as A. cbn [append] in A.
    now rewrite A, IHMatches2.
  - now rewrite IHMatches.
  - rewrite IHMatches by assumption. apply orb_true_r.
Qed.

Lemma deriv_sound (r : regexp.regex) (c : ascii) (w rest : string) :
  Matches (regexp.deriv c r) w rest -> Matches r (String c w) rest.
Proof.
  revert w rest; induction r; intros w rest; cbn [regexp.deriv]; intros H.
  - inversion H.
  - inversion H.
  - destruct (Ascii.eqb_spec c0 c) as [->|_]; inversion H; subst. constructor.
  - destruct (regexp.in_class lo hi c) eqn:E; inversion H; subst.
    now constructor.
  - assert (C : forall w, Matches (regexp.Cat (regexp.deriv c r1) r2) w rest ->
                          Matches (regexp.Cat r1 r2) (String c w) rest).
    { intros w0 H0. inversion H0; subst.
      change (String c (w1 ++ w2)) with (String c w1 ++ w2).
      apply Matches_Cat; auto. }
    destruct (regexp.nullable false r1) eqn:N; [|now apply C].
    inversion H; subst; [now apply C|].
    change (String c w) with ("" ++ String c w).
    apply Matches_Cat; [|now apply IHr2].
    apply nullable_Matches. exact N.
  - inversion H; subst; [apply Matches_AltL | apply Matches_AltR]; auto.
  - inversion H; subst.
    change (String c (w1 ++ w2)) with (String c w1 ++ w2).
    apply Matches_StarCons; auto.
  - inversion H.
Qed.

Lemma deriv_complete (r : regexp.regex) (cw rest : string) :
  Matches r cw rest ->
  forall c w, cw = String c w -> Matches (regexp.deriv c r) w rest.
Proof.
  induction 1; intros a u E; cbn [regexp.deriv]; try discriminate.
  - injection E as -> <-. rewrite Ascii.eqb_refl. constructor.
  - injection E as -> <-. rewrite H. constructor.
  - destruct w1 as [|b w1]; cbn [append] in E.
    + subst w2. pose proof (Matches_nullable _ _ _ H eq_refl) as N.
      cbn [append atEnd] in N. rewrite N.
      apply Matches_AltR. now apply IHMatches2.
    + injection E as -> <-.
      pose proof (Matches_Cat _ _ _ _ _ (IHMatches1 a w1 eq_refl) H0) as C.
      destruct (regexp.nullable false r1); [now apply Matches_AltL | exact C].
  - apply Matches_AltL. now apply IHMatches.
  - apply Matches_AltR. now apply IHMatches.
  - destruct w1 as [|b w1]; cbn [append] in E.
    + now apply IHMatches2.
    + injection E as -> <-.
      exact (Matches_Cat _ _ _ _ _ (IHMatches1 a w1 eq_refl) H0).
Qed.

Lemma matchHere_Matches (r : regexp.regex) (s : string) :
  regexp.matchHere r s = true <->
  exists w rest, s = w ++ rest /\ Matches r w rest.
Proof.
  revert r; induction s as [|c s IH]; intros r; cbn [regexp.matchHere].
  - split.
    + intros H. exists "", "". split; [reflexivity|].
      now apply nullable_Matches.
    + intros (w & rest & E & M). symmetry in E.
      apply append_eq_nil in E. destruct E as [-> ->].
      exact (Matches_nullable _ _ _ M eq_refl).
  - rewrite orb_true_iff, IH. split.
    + intros [N|(w & rest & -> & M)].
      * exists "", (String c s). split; [reflexivity|].
        now apply nullable_Matches.
      * exists (String c w), rest. split; [reflexivity|].
        now apply deriv_sound.
    + intros (w & rest & E & M). destruct w as [|b w]; cbn [append] in E.
      * subst rest. left. exact (Matches_nullable _ _ _ M eq_refl).
      * injection E as <- ->. right. exists w, rest.
        split; [reflexivity|]. exact (deriv_complete _ _ _ M c w eq_refl).
Qed.

(** ** What [versionSuffix] matches *)

Lemma Star_digits (w rest : string) :
  Matches (regexp.Star (regexp.Class "2" "9")) w rest <-> digits2to9 w = true.
Proof.
  split.
  - remember (regexp.Star (regexp.Class "2" "9")) as r eqn:R.
    induction 1; try discriminate; [reflexivity|].
    injection R as ->. inversion H; subst. cbn [append digits2to9].
    rewrite H5. now apply IHMatches2.
  - revert rest; induction w as [|c w IH]; intros rest; [constructor|].
    cbn [digits2to9]. intros H. apply andb_true_iff in H. destruct H as [Hc Hw].
    change (String c w) with (String c "" ++ w).
    apply Matches_StarCons; [now constructor | now apply IH].
Qed.

Lemma versionSuffix_Matches (w rest : string) :
  Matches versionSuffix w rest <->
  rest = "" /\ exists ds, w = "/v" ++ ds /\ versionDigits ds = true.
Proof.
  unfold versionSuffix, regexp.Plus, versionDigits. split.
  - intros H.
    repeat match goal with
           | H : Matches (regexp.Cat _ _) _ _ |- _ => inversion H; subst; clear H
           | H : Matches (regexp.Lit _) _ _ |- _ => inversion H; subst; clear H
           | H : Matches (regexp.Class _ _) _ _ |- _ =>
               inversion H; subst; clear H
           | H : Matches regexp.EndText _ _ |- _ => inversion H; subst; clear H
           end.
    match goal with
    | H : Matches (regexp.Star _) _ _ |- _ => apply Star_digits in H
    end.
    split; [reflexivity|]. eexists. split.
    + cbn [append]. rewrite !append_nil_r. reflexivity.
    + cbn [String.eqb negb andb digits2to9].
      match goal with H : regexp.in_class _ _ _ = true |- _ => rewrite H end.
      assumption.
  - intros (-> & ds & -> & D). apply andb_true_iff in D. destruct D as [N D].
    destruct ds as [|c ds]; [discriminate|]. cbn [digits2to9] in D.
    apply andb_true_iff in D. destruct D as [Dc Dds].
    replace ("/v" ++ String c ds)
      with (String "/" "" ++ (String "v" "" ++ (String c ds ++ "")))
      by (cbn [append]; now rewrite append_nil_r).
    apply Matches_Cat; [constructor|].
    apply Matches_Cat; [constructor|].
    apply Matches_Cat; [|constructor].
    change (String c ds) with (String c "" ++ ds).
    apply Matches_Cat; [now constructor|]. now apply Star_digits.
Qed.

Lemma matchHere_versionSuffix (s : string) :
  regexp.matchHere versionSuffix s = true <->
  exists ds, s = "/v" ++ ds /\ versionDigits ds = true.
Proof.
  rewrite matchHere_Matches. split.
  - intros (w & rest & -> & M). apply versionSuffix_Matches in M.
    destruct M as (-> & ds & -> & D). exists ds.
    now rewrite append_nil_r.
  - intros (ds & -> & D). exists ("/v" ++ ds), "". split.
    + now rewrite append_nil_r.
    + apply versionSuffix_Matches. split; [reflexivity|]. now exists ds.
Qed.

Lemma digits_no_slash (ds : string) :
  digits2to9 ds = true -> has_byte "/" ds = false.
Proof.
  induction ds as [|c ds IH]; cbn [digits2to9 has_byte]; [reflexivity|].
  intros H. apply andb_true_iff in H. destruct H as [Hc Hds].
  rewrite (IH Hds). destruct (Ascii.eqb_spec c "/") as [->|_];
    [discriminate | reflexivity].
Qed.

Lemma has_byte_append (c : ascii) (x y : string) :
  has_byte c (x ++ y) = has_byte c x || has_byte c y.
Proof.
  induction x as [|b x IH]; cbn [append has_byte]; [reflexivity|].
  now rewrite IH, orb_assoc.
Qed.

Lemma has_byte_from (c : ascii) (i : nat) (s : string) :
  has_byte c s = false -> has_byte c (strings.from i s) = false.
Proof.
  revert s; induction i as [|i IH]; intros s H; [exact H|].
  destruct s as [|b s]; [reflexivity|]. cbn [strings.from].
  cbn [has_byte] in H. apply orb_false_elim in H. now apply IH.
Qed.

Lemma upto_from (i : nat) (s : string) :
  strings.upto i s ++ strings.from i s = s.
Proof.
  revert s; induction i as [|i IH]; intros s; [reflexivity|].
  destruct s as [|b s]; [reflexivity|].
  cbn [strings.upto strings.from append]. now rewrite IH.
Qed.

Lemma FindStringStart_unfold (r : regexp.regex) (s : string) :
  regexp.FindStringStart r s =
  if regexp.matchHere r s then Some O
  else match s with
       | EmptyString => None
       | String _ s' => option_map S (regexp.FindStringStart r s')
       end.
Proof. destruct s; reflexivity. Qed.

Lemma FindStringStart_some (r : regexp.regex) (s : string) (i : nat) :
  regexp.FindStringStart r s = Some i ->
  regexp.matchHere r (strings.from i s) = true.
Proof.
  revert i; induction s as [|c s IH]; intros i; rewrite FindStringStart_unfold.
  - destruct (regexp.matchHere r "") eqn:M; [|discriminate].
    now intros [= <-].
  - destruct (regexp.matchHere r (String c s)) eqn:M.
    + now intros [= <-].
    + destruct (regexp.FindStringStart r s) as [j|]; [|discriminate].
      cbn [option_map]. intros [= <-]. cbn [strings.from]. now apply IH.
Qed.

Lemma FindStringStart_versionSuffix (base ds : string) :
  versionDigits ds = true ->
  regexp.FindStringStart versionSuffix (base ++ "/v" ++ ds)
  = Some (String.length base).
Proof.
  intros D. induction base as [|c base IH]; rewrite FindStringStart_unfold.
  - cbn [append String.length].
    assert (M : regexp.matchHere versionSuffix ("/v" ++ ds) = true)
      by (apply matchHere_versionSuffix; now exists ds).
    cbn [append] in M. now rewrite M.
  - destruct (regexp.matchHere versionSuffix (String c base ++ "/v" ++ ds))
      eqn:M.
    + exfalso. apply matchHere_versionSuffix in M.
      destruct M as (ds' & E & D'). cbn [append] in E.
      injection E as _ E.
      assert (S : has_byte "/" (base ++ String "/" (String "v" ds)) = true).
      { rewrite has_byte_append. cbn [has_byte].
        replace (Ascii.eqb "/" "/") with true by reflexivity.
        cbn [orb]. apply orb_true_r. }
      rewrite E in S. cbn [has_byte] in S.
      unfold versionDigits in D'. apply andb_true_iff in D'.
      rewrite (digits_no_slash ds' (proj2 D')) in S. discriminate.
    + cbn [append] in *. rewrite IH. reflexivity.
Qed.

Lemma modPathWithoutVersion_suffix (base ds : string) :
  versionDigits ds = true -> modPathWithoutVersion (base ++ "/v" ++ ds) = base.
Proof.
  intros D. unfold modPathWithoutVersion.
  rewrite (FindStringStart_versionSuffix base ds D).
  apply upto_length_append.
Qed.

Lemma modPathWithoutVersion_prefix (path : string) :
  modPathWithoutVersion path = path \/
  exists ds,
    versionDigits ds = true /\
    path = modPathWithoutVersion path ++ "/v" ++ ds.
Proof.
  unfold modPathWithoutVersion.
  destruct (regexp.FindStringStart versionSuffix path) as [i|] eqn:F;
    [|now left].
  right. apply FindStringStart_some, matchHere_versionSuffix in F.
  destruct F as (ds & E & D). exists ds. split; [exact D|].
  rewrite <- E. symmetry. apply upto_from.
Qed.

(** X12: [modPathWithoutVersion] removes from a path a final "/v" followed
    by one or more digits, each from 2 to 9, whatever stands before it, and
    removes nothing else: its result is the path itself, or the path without
    such a suffix, and it is the path itself exactly when the path has no
    such suffix. *)
Theorem modPathWithoutVersion_digits_2_to_9 (path : string) :
  (forall base ds,
     versionDigits ds = true -> path = base ++ "/v" ++ ds ->
     modPathWithoutVersion path = base) /\
  (modPathWithoutVersion path = path \/
   exists ds,
     versionDigits ds = true /\
     path = modPathWithoutVersion path ++ "/v" ++ ds) /\
  (modPathWithoutVersion path = path <->
   forall base ds, versionDigits ds = true -> path <> base ++ "/v" ++ ds).
Proof.
  split; [|split].
  - intros base ds D ->. now apply modPathWithoutVersion_suffix.
  - apply modPathWithoutVersion_prefix.
  - split.
    + intros E base ds D ->.
      rewrite (modPathWithoutVersion_suffix base ds D) in E.
      apply (f_equal String.length) in E. rewrite length_append in E.
      cbn [append String.length] in E. lia.
    + intros H. destruct (modPathWithoutVersion_prefix path)
        as [E|(ds & D & E)]; [exact E|].
      now elim (H _ ds D E).
Qed.

(** ** The paths that the upstream lookup accepts *)

Lemma HasSuffix_spec (s suffix : string) :
  strings.HasSuffix s suffix = true <-> exists pre, s = pre ++ suffix.
Proof.
  unfold strings.HasSuffix. rewrite andb_true_iff, Nat.leb_le, String.eqb_eq.
  split.
  - intros [_ E].
    exists (strings.upto (String.length s - String.length suffix) s).
    rewrite <- E at 2. symmetry. apply upto_from.
  - intros [pre ->]. rewrite length_append. split; [lia|].
    replace (String.length pre + String.length suffix - String.length suffix)
      with (String.length pre) by lia.
    apply from_length_append.
Qed.

Lemma from_append_ge (i : nat) (x y : string) :
  String.length x <= i ->
  strings.from i (x ++ y) = strings.from (i - String.length x) y.
Proof.
  revert i; induction x as [|c x IH]; intros i H;
    cbn [String.length append] in *.
  - now rewrite Nat.sub_0_r.
  - destruct i as [|i]; [lia|]. cbn [strings.from Nat.sub]. apply IH. lia.
Qed.

Lemma digits2to9_append (x y : string) :
  digits2to9 (x ++ y) = digits2to9 x && digits2to9 y.
Proof.
  induction x as [|c x IH]; cbn [append digits2to9]; [reflexivity|].
  now rewrite IH, andb_assoc.
Qed.

Lemma modPathWithoutVersion_repo_name (pre name : string) :
  has_byte "/" name = false ->
  modPathWithoutVersion (pre ++ "terraform-provider-" ++ name)
  = pre ++ "terraform-provider-" ++ name.
Proof.
  intros Hname. unfold modPathWithoutVersion.
  destruct (regexp.FindStringStart versionSuffix _) as [i|] eqn:F;
    [|reflexivity].
  exfalso. apply FindStringStart_some, matchHere_versionSuffix in F.
  destruct F as (ds & E & D). unfold versionDigits in D.
  apply andb_true_iff in D. destruct D as [_ D].
  destruct (Nat.le_gt_cases i (String.length pre)) as [Hi|Hi].
  - rewrite from_append in E by exact Hi.
    destruct (strings.from i pre) as [|a [|b x]]; cbn [append] in E.
    + discriminate.
    + discriminate.
    + injection E as _ _ E. rewrite <- E, digits2to9_append in D.
      apply andb_true_iff in D. destruct D as [_ D]. cbn in D. discriminate.
  - rewrite from_append_ge in E by lia.
    assert (S : has_byte "/" ("terraform-provider-" ++ name) = false)
      by (rewrite has_byte_append; now rewrite Hname).
    apply has_byte_from with (i := i - String.length pre) in S.
    rewrite E in S. cbn in S. discriminate.
Qed.

(** X13: for a provider name without "/", the upstream lookup accepts a
    require entry exactly when its path ends with
    "terraform-provider-<name>", or with that followed by "/v" and one or
    more digits, each from 2 to 9. *)
Theorem isUpstream_paths (name : string) (entry : modfile_Require) :
  has_byte "/" name = false ->
  (isUpstream ("terraform-provider-" ++ name) entry = true <->
   exists pre,
     Path (Mod entry) = pre ++ "terraform-provider-" ++ name \/
     exists ds,
       versionDigits ds = true /\
       Path (Mod entry) = pre ++ ("terraform-provider-" ++ name) ++ "/v" ++ ds).
Proof.
  intros Hname. unfold isUpstream. rewrite HasSuffix_spec. split.
  - intros [pre E].
    destruct (modPathWithoutVersion_prefix (Path (Mod entry)))
      as [U|(ds & D & U)].
    + exists pre. left. now rewrite <- U.
    + exists pre. right. exists ds. split; [exact D|].
      rewrite U at 1. rewrite E. now rewrite append_assoc.
  - intros [pre [E|(ds & D & E)]].
    + exists pre. rewrite E. now apply modPathWithoutVersion_repo_name.
    + exists pre. rewrite E, <- append_assoc.
      now apply modPathWithoutVersion_suffix.
Qed.

Lemma isUpstream_paths_witness :
  isUpstream "terraform-provider-foo" Fixture.other_foo = true.
Proof.
  apply (proj2 (isUpstream_paths "foo" Fixture.other_foo eq_refl)).
  exists "github.com/acme/". right. exists "2". split; reflexivity.
Defined.

(** * Order and irrelevance *)

(** X14: the branch that [pullDefault] picks does not depend on the order
    in which the remote branches are listed. *)
Theorem pickBranch_order_irrelevant (branches branches' : list string)
    (targetBranch : string) :
  Permutation branches branches' ->
  pickBranch branches targetBranch = pickBranch branches' targetBranch.
Proof.
  intros P.
  assert (Q : forall b, In b branches <-> In b branches').
  { intros b. split; apply Permutation_in; [exact P | now apply Permutation_sym]. }
  destruct (pickBranch_spec branches targetBranch) as (A1 & A2 & A3).
  destruct (pickBranch_spec branches' targetBranch) as (B1 & B2 & B3).
  destruct (in_dec string_dec "main" branches) as [M|M].
  - rewrite (A1 M). symmetry. apply B1. now apply Q.
  - assert (M' : ~ In "main" branches') by (intros H; now apply M, Q).
    destruct (in_dec string_dec "master" branches) as [S|S].
    + rewrite (A2 M S). symmetry. apply B2; [exact M' | now apply Q].
    + rewrite (A3 M S). symmetry. apply B3; [exact M'|].
      intros H. now apply S, Q.
Qed.

Lemma pickBranch_order_irrelevant_witness :
  pickBranch ["master"; "main"; "develop"] ""
  = pickBranch ["develop"; "master"; "main"] "".
Proof.
  apply pickBranch_order_irrelevant.
  change (Permutation (["master"; "main"] ++ ["develop"])
            (["develop"] ++ ["master"; "main"])).
  apply Permutation_app_comm.
Defined.

Lemma findFork_first_only (tf : string) (upstream : modfile_Require)
    (replaces : list modfile_Replace) :
  findFork tf upstream replaces =
  findFork tf upstream
    (firstn 1 (filter (fun r => String.eqb (Path (Old r)) (Path (Mod upstream)))
                 replaces)).
Proof.
  induction replaces as [|r replaces IH]; cbn [filter]; [reflexivity|].
  destruct (String.eqb (Path (Old r)) (Path (Mod upstream))) eqn:E.
  - cbn [firstn findFork]. rewrite E. cbn [negb].
    destruct (strings.Cut (Path (New r)) ("/" ++ tf)) as [[before after] found].
    destruct (negb found || _); [reflexivity|].
    destruct (negb _); reflexivity.
  - cbn [findFork]. rewrite E. cbn [negb]. exact IH.
Qed.

(** X15: the replace directives enter the classification only through the
    first one whose original path is the upstream path: directives for other
    modules, and later directives for the upstream path, can be dropped
    without changing the result, be it a kind or an error. *)
Theorem repoKind_first_directive_only (join : list string -> string)
    (goMod : modfile_File) (shimStat : statResult) (shim : manifest)
    (path name : string) (upstream : modfile_Require) (shimmed : bool) :
  findUpstream join goMod shimStat shim path ("terraform-provider-" ++ name)
    = Ok (upstream, shimmed) ->
  repoKind join (Parsed goMod) shimStat shim path name =
  repoKind join
    (Parsed {| Require := Require goMod;
               Replace :=
                 firstn 1
                   (filter (fun r => String.eqb (Path (Old r))
                                       (Path (Mod upstream)))
                      (Replace goMod)) |})
    shimStat shim path name.
Proof.
  intros U. unfold repoKind.
  assert (U' : findUpstream join
                 {| Require := Require goMod;
                    Replace :=
                      firstn 1
                        (filter (fun r => String.eqb (Path (Old r))
                                            (Path (Mod upstream)))
                           (Replace goMod)) |}
                 shimStat shim path ("terraform-provider-" ++ name)
               = Ok (upstream, shimmed)) by exact U.
  rewrite U, U'. cbn [Replace].
  now rewrite (findFork_first_only _ upstream (Replace goMod)).
Qed.

Lemma repoKind_first_directive_only_witness :
  repoKind Triple.slash_Join (Parsed Fixture.forked_twice) Fixture.notExist
    Fixture.noManifest "repo" "foo"
  = repoKind Triple.slash_Join
      (Parsed {| Require := Require Fixture.forked_twice;
                 Replace := firstn 1 (Replace Fixture.forked_twice) |})
      Fixture.notExist Fixture.noManifest "repo" "foo".
Proof.
  exact (repoKind_first_directive_only Triple.slash_Join Fixture.forked_twice
           Fixture.notExist Fixture.noManifest "repo" "foo"
           Fixture.upstream_foo false eq_refl).
Defined.

(** * The fork that is returned *)

Lemma MatchString_versionSuffix (s : string) :
  regexp.MatchString versionSuffix s = true <->
  exists base ds, versionDigits ds = true /\ s = base ++ "/v" ++ ds.
Proof.
  unfold regexp.MatchString. split.
  - destruct (regexp.FindStringStart versionSuffix s) as [i|] eqn:F;
      [|discriminate].
    intros _. apply FindStringStart_some, matchHere_versionSuffix in F.
    destruct F as (ds & E & D). exists (strings.upto i s), ds.
    split; [exact D|]. rewrite <- E. symmetry. apply upto_from.
  - intros (base & ds & D & ->).
    now rewrite (FindStringStart_versionSuffix base ds D).
Qed.

(** X2: a Fork that [repoKind] returns is a replace directive of the outer
    manifest for the upstream path, the first one for that path, and its new
    path reads [<before>/terraform-provider-<name><after>], at the first
    occurrence of "/terraform-provider-<name>" in it, where the last
    "/"-separated segment of [<before>] is "pulumi" and [<after>] is empty
    or ends with "/v" and one or more digits from 2 to 9. *)
Theorem repoKind_fork_trusted (join : list string -> string)
    (outer : manifest) (shimStat : statResult) (shim : manifest)
    (path name : string) (out : GoMod) (replace : modfile_Replace) :
  repoKind join outer shimStat shim path name = Ok out ->
  Fork out = Some replace ->
  exists goMod skipped rest before after,
    outer = Parsed goMod /\
    Replace goMod = (skipped ++ replace :: rest)%list /\
    (forall r, In r skipped -> Path (Old r) <> Path (Upstream out)) /\
    Path (Old replace) = Path (Upstream out) /\
    firstCut (Path (New replace)) ("/" ++ "terraform-provider-" ++ name)
      before after /\
    (before = "pulumi" \/ exists pre, before = pre ++ "/" ++ "pulumi") /\
    (after = "" \/
     exists base ds, versionDigits ds = true /\ after = base ++ "/v" ++ ds).
Proof.
  intros H F.
  destruct (repoKind_ok_inv _ _ _ _ _ _ _ H)
    as (goMod & upstream & shimmed & fork & -> & _ & FF & ->).
  cbn [Fork Upstream] in *. subst fork.
  destruct (findFork_some _ _ _ _ FF)
    as (skipped & rest & before & after & R & S & O & C & A & P).
  exists goMod, skipped, rest, before, after.
  split; [reflexivity|]. split; [exact R|]. split; [exact S|].
  split; [exact O|]. split; [now apply Cut_firstCut|]. split.
  - destruct (orgOf_segment before) as [_ B]. now rewrite P in B.
  - destruct A as [A|A]; [now left|]. right.
    now apply MatchString_versionSuffix.
Qed.

Lemma repoKind_fork_trusted_witness :
  exists before after,
    firstCut "github.com/pulumi/terraform-provider-foo/v4"
      ("/" ++ "terraform-provider-" ++ "foo") before after /\
    (before = "pulumi" \/ exists pre, before = pre ++ "/" ++ "pulumi").
Proof.
  destruct (repoKind_fork_trusted Triple.slash_Join (Parsed Fixture.forked)
              Fixture.notExist Fixture.noManifest "repo" "foo"
              _ _ eq_refl eq_refl)
    as (goMod & skipped & rest & before & after & _ & _ & _ & _ & C & B & _).
  exists before, after. split; [exact C | exact B].
Defined.
